(** * brailleTables: registry of braille translation tables

    A shallow embedding of [source/brailleTables.py] and the properties of
    its registry, of the display-name resolution for custom tables and of
    the loading of custom table manifests.

    Conventions of the embedding:
    - a Python [str] is a [string] (the UTF-8 bytes of the text; the
      byte-wise lexicographic order of UTF-8 is the code-point order that
      Python uses to compare [str] values);
    - the module globals [tablesDirs] and [_tables] are the fields of a
      [State] record that every operation threads explicitly; what is
      sent to [logHandler.log] is kept in a third field;
    - a Python [dict] iterated or listed in insertion order ([_tables],
      the manifest data) is an association list with unique keys updated
      in place; a [dict] that is only looked up (the per-locale display
      names) is a [gmap];
    - a function that may raise returns an [outcome]: either a value or an
      exception, in both cases with the state reached so far;
    - what the module imports from the rest of the application (gettext,
      the active language, the file system, the configuration, the
      add-on list, the ConfigObj parser) is a field of [Env]. *)

From Stdlib Require Import String Ascii List Bool Arith Lia.
From Stdlib Require Import Sorting.Sorted Sorting.Permutation.
From stdpp Require Import base option list strings gmap fin_maps.

Import ListNotations.
Local Open Scope string_scope.
Local Open Scope list_scope.

(** ** Python dictionaries with insertion order *)

Module PyDict.
Section dict.
Context {V : Type}.

Definition dict := list (string * V).

(** [d.get(k)] / [k in d] *)
Fixpoint get (d : dict) (k : string) : option V :=
  match d with
  | [] => None
  | (k', v) :: d' => if String.eqb k' k then Some v else get d' k
  end.

(** [d[k] = v]: an existing key keeps its position, a new key goes last. *)
Fixpoint set (d : dict) (k : string) (v : V) : dict :=
  match d with
  | [] => [(k, v)]
  | (k', v') :: d' =>
      if String.eqb k' k then (k', v) :: d' else (k', v') :: set d' k v
  end.

Definition keys (d : dict) : list string := d.*1.
Definition values (d : dict) : list V := d.*2.
Definition items (d : dict) : list (string * V) := d.

(** The association lists that are dictionaries: no key twice. *)
Definition wf (d : dict) : Prop := NoDup (keys d).
End dict.
Arguments dict V : clear implicits.
End PyDict.

(** ** Data of the module *)

(** The directory in which liblouis braille tables are located. *)
Definition TABLES_DIR : string := "louis\tables".

(** Table to use for both input and output if configuration is invalid. *)
Definition FALLBACK_TABLE_NAME : string := "en-ueb-g1.ctb".

(** Information about a braille table (the namedtuple of the source). *)
Record BrailleTable : Type := mkBrailleTable {
  fileName : string;
  displayName : string;
  contracted : bool;
  output : bool;
  input : bool
}.

(** The exceptions the module raises or lets through. *)
Inductive exn : Type :=
| ValueError
| KeyError
| AttributeError
| FileNotFoundError
| ManifestError (msg : string).

(** The mutable globals, and the records sent to the log. *)
Record State : Type := mkState {
  tablesDirs : list string;
  _tables : PyDict.dict BrailleTable;
  logged : list string
}.

(** State of a freshly imported module. *)
Definition initialState : State :=
  {| tablesDirs := [TABLES_DIR]; _tables := []; logged := [] |}.

(** ** Computations that mutate the globals and may raise *)

Inductive outcome (A : Type) : Type :=
| Return (a : A) (st : State)
| Raise (e : exn) (st : State).
Arguments Return {A} a st.
Arguments Raise {A} e st.

Definition M (A : Type) : Type := State -> outcome A.

Definition raise {A} (e : exn) : M A := fun st => Raise e st.

#[export] Instance M_ret : MRet M := fun A a st => Return a st.
#[export] Instance M_bind : MBind M := fun A B k m st =>
  match m st with
  | Return a st' => k a st'
  | Raise e st' => Raise e st'
  end.

(** [for x in xs: body(x)] *)
Fixpoint for_each {A} (xs : list A) (body : A -> M unit) : M unit :=
  match xs with
  | [] => mret tt
  | x :: xs' => body x ;; for_each xs' body
  end.

(** [try: m  except Exception: handler] *)
Definition try_except {A} (m : M A) (handler : exn -> M A) : M A :=
  fun st =>
    match m st with
    | Return a st' => Return a st'
    | Raise e st' => handler e st'
    end.

Definition final_state {A} (o : outcome A) : State :=
  match o with
  | Return _ st => st
  | Raise _ st => st
  end.

Definition returns {A} (o : outcome A) : bool :=
  match o with
  | Return _ _ => true
  | Raise _ _ => false
  end.

Definition log_write (msg : string) : M unit :=
  fun st =>
    Return tt {| tablesDirs := tablesDirs st;
                 _tables := _tables st;
                 logged := logged st ++ [msg] |}.

(** ** The registry *)

(** [addTable]: register a braille translation table. *)
Definition addTable (fileName displayName : string)
    (contracted output input : bool) : M unit :=
  fun st =>
    if negb output && negb input then Raise ValueError st
    else
      let table := mkBrailleTable fileName displayName contracted output input in
      Return tt {| tablesDirs := tablesDirs st;
                   _tables := PyDict.set (_tables st) fileName table;
                   logged := logged st |}.

(** [getTable]: [_tables[fileName]], a [KeyError] (a [LookupError]) when
    there is no such key. *)
Definition getTable (fileName : string) : M BrailleTable :=
  fun st =>
    match PyDict.get (_tables st) fileName with
    | Some table => Return table st
    | None => Raise KeyError st
    end.

Definition getFallbackTable : M BrailleTable := getTable FALLBACK_TABLE_NAME.

(** [sorted(xs, key=key)]: Python's sort is stable and compares keys with
    [<] only; the result is the one of a stable insertion. *)
Section sorted.
Context {A : Type} (key : A -> string).

Fixpoint insert_sorted (x : A) (l : list A) : list A :=
  match l with
  | [] => [x]
  | y :: l' =>
      if String.ltb (key y) (key x) then y :: insert_sorted x l'
      else x :: y :: l'
  end.

Fixpoint sorted (l : list A) : list A :=
  match l with
  | [] => []
  | x :: l' => insert_sorted x (sorted l')
  end.
End sorted.

(** [listTables]: all registered tables, sorted by display name. *)
Definition listTables (st : State) : list BrailleTable :=
  sorted displayName (PyDict.values (_tables st)).

(** [terminate] *)
Definition terminate : M unit :=
  fun st =>
    Return tt {| tablesDirs := [TABLES_DIR]; _tables := []; logged := logged st |}.

(** ** Renamed tables *)

(** Maps old table names to new table names for tables renamed in newer
    versions of liblouis. *)
Definition RENAMED_TABLES : PyDict.dict string := [
  ("ar-fa.utb", "fa-ir-g1.utb");
  ("da-dk-g16.utb", "da-dk-g16.ctb");
  ("da-dk-g18.utb", "da-dk-g18.ctb");
  ("de-de-g0.utb", "de-g0.utb");
  ("de-de-g1.ctb", "de-g1.ctb");
  ("de-de-g2.ctb", "de-g2.ctb");
  ("en-us-comp8.ctb", "en-us-comp8-ext.utb");
  ("fr-ca-g1.utb", "fr-bfu-comp6.utb");
  ("Fr-Ca-g2.ctb", "fr-bfu-g2.ctb");
  ("gr-bb.ctb", "grc-international-en.utb");
  ("gr-gr-g1.utb", "el.ctb");
  ("hr.ctb", "hr-comp8.utb");
  ("mn-MN.utb", "mn-MN-g1.utb");
  ("nl-BE-g1.ctb", "nl-BE-g0.utb");
  ("nl-NL-g1.ctb", "nl-NL-g0.utb");
  ("no-no.ctb", "no-no-8dot.utb");
  ("no-no-comp8.ctb", "no-no-8dot.utb");
  ("ru-compbrl.ctb", "ru.ctb");
  ("sk-sk-g1.utb", "sk-g1.ctb");
  ("UEBC-g1.ctb", "en-ueb-g1.ctb");
  ("UEBC-g2.ctb", "en-ueb-g2.ctb")
].

(** ** The builtin tables

    [initialize] starts with one [addTable] call per builtin table, each of
    the form [addTable(fileName, _(name), ...)]; the calls are listed here
    in the order of the source, with the defaults of [addTable] (contracted
    false, output true, input true) written out. *)
Record builtin_call : Type := builtin {
  b_fileName : string;
  b_name : string;
  b_contracted : bool;
  b_output : bool;
  b_input : bool
}.

Definition builtinTables : list builtin_call := [
  builtin "afr-za-g1.ctb" "Afrikaans grade 1" false true true;
  builtin "ar-ar-comp8.utb" "Arabic 8 dot computer braille" false true true;
  builtin "ar-ar-g1.utb" "Arabic grade 1" false true true;
  builtin "ar-ar-g2.ctb" "Arabic grade 2" false true true;
  builtin "as-in-g1.utb" "Assamese grade 1" false true true;
  builtin "be-in-g1.utb" "Bengali grade 1" false true true;
  builtin "bg.ctb" "Bulgarian 8 dot computer braille" false true true;
  builtin "ckb-g1.ctb" "Central Kurdish grade 1" false true true;
  builtin "cy-cy-g1.utb" "Welsh grade 1" false true true;
  builtin "cy-cy-g2.ctb" "Welsh grade 2" true true true;
  builtin "cs-comp8.utb" "Czech 8 dot computer braille" false true true;
  builtin "cs-g1.ctb" "Czech grade 1" false true true;
  builtin "da-dk-g08.ctb" "Danish 8 dot computer braille" false true true;
  builtin "da-dk-g16.ctb" "Danish 6 dot grade 1" false true true;
  builtin "da-dk-g18.ctb" "Danish 8 dot grade 1" false true true;
  builtin "da-dk-g26.ctb" "Danish 6 dot grade 2" true true true;
  builtin "da-dk-g28.ctb" "Danish 8 dot grade 2" true true true;
  builtin "de-de-comp8.ctb" "German 8 dot computer braille" false true true;
  builtin "de-g0.utb" "German grade 0" false true true;
  builtin "de-g1.ctb" "German grade 1" false true true;
  builtin "de-g2.ctb" "German grade 2" true true true;
  builtin "el.ctb" "Greek (Greece)" false true true;
  builtin "en-gb-comp8.ctb" "English (U.K.) 8 dot computer braille" false true true;
  builtin "en-gb-g1.utb" "English (U.K.) grade 1" false true true;
  builtin "en-GB-g2.ctb" "English (U.K.) grade 2" true true true;
  builtin "en-nabcc.utb" "English North American Braille Computer Code" false true true;
  builtin "en-ueb-g1.ctb" "Unified English Braille Code grade 1" false true true;
  builtin "en-ueb-g2.ctb" "Unified English Braille Code grade 2" true true true;
  builtin "en-us-comp6.ctb" "English (U.S.) 6 dot computer braille" false true true;
  builtin "en-us-comp8-ext.utb" "English (U.S.) 8 dot computer braille" false true true;
  builtin "en-us-g1.ctb" "English (U.S.) grade 1" false true true;
  builtin "en-us-g2.ctb" "English (U.S.) grade 2" true true true;
  builtin "eo-g1.ctb" "Esperanto grade 1" false true true;
  builtin "Es-Es-G0.utb" "Spanish 8 dot computer braille" false true true;
  builtin "es-g1.ctb" "Spanish grade 1" false true true;
  builtin "es-g2.ctb" "Spanish grade 2" false true true;
  builtin "et-g0.utb" "Estonian grade 0" false true true;
  builtin "ethio-g1.ctb" "Ethiopic grade 1" false true true;
  builtin "fa-ir-comp8.ctb" "Persian 8 dot computer braille" false true true;
  builtin "fa-ir-g1.utb" "Persian grade 1" false true true;
  builtin "fi.utb" "Finnish 6 dot" false true true;
  builtin "fi-fi-8dot.ctb" "Finnish 8 dot computer braille" false true true;
  builtin "fr-bfu-comp6.utb" "French (unified) 6 dot computer braille" false true true;
  builtin "fr-bfu-comp8.utb" "French (unified) 8 dot computer braille" false true true;
  builtin "fr-bfu-g2.ctb" "French (unified) grade 2" true true true;
  builtin "ga-g1.utb" "Irish grade 1" false true true;
  builtin "ga-g2.ctb" "Irish grade 2" true true true;
  builtin "gu-in-g1.utb" "Gujarati grade 1" false true true;
  builtin "grc-international-en.utb" "Greek international braille" false true true;
  builtin "he.ctb" "Hebrew 8 dot computer braille" false true true;
  builtin "hi-in-g1.utb" "Hindi grade 1" false true true;
  builtin "hr-comp8.utb" "Croatian 8 dot computer braille" false true true;
  builtin "hr-g1.ctb" "Croatian grade 1" false true true;
  builtin "hu-hu-comp8.ctb" "Hungarian 8 dot computer braille" false true true;
  builtin "hu-hu-g1.ctb" "Hungarian grade 1" false true true;
  builtin "hu-hu-g2.ctb" "Hungarian grade 2" true true true;
  builtin "is.ctb" "Icelandic 8 dot computer braille" false true true;
  builtin "it-it-comp6.utb" "Italian 6 dot computer braille" false true true;
  builtin "it-it-comp8.utb" "Italian 8 dot computer braille" false true true;
  builtin "ka-in-g1.utb" "Kannada grade 1" false true true;
  builtin "ko-2006-g1.ctb" "Korean grade 1 (2006)" false true true;
  builtin "ko-2006-g2.ctb" "Korean grade 2 (2006)" true true true;
  builtin "ko-g1.ctb" "Korean grade 1" false true true;
  builtin "ko-g2.ctb" "Korean grade 2" true true true;
  builtin "ks-in-g1.utb" "Kashmiri grade 1" false true true;
  builtin "lt.ctb" "Lithuanian 8 dot" false true true;
  builtin "lt-6dot.utb" "Lithuanian 6 dot" false true true;
  builtin "Lv-Lv-g1.utb" "Latvian grade 1" false true true;
  builtin "ml-in-g1.utb" "Malayalam grade 1" false true true;
  builtin "mn-in-g1.utb" "Manipuri grade 1" false true true;
  builtin "mn-MN-g1.utb" "Mongolian grade 1" false true true;
  builtin "mn-MN-g2.ctb" "Mongolian grade 2" true true true;
  builtin "mr-in-g1.utb" "Marathi grade 1" false true true;
  builtin "nl-BE-g0.utb" "Dutch (Belgium) 6 dot" false true true;
  builtin "nl-NL-g0.utb" "Dutch (Netherlands) 6 dot" false true true;
  builtin "nl-comp8.utb" "Dutch 8 dot" false true true;
  builtin "no-no-8dot.utb" "Norwegian 8 dot computer braille" false true true;
  builtin "No-No-g0.utb" "Norwegian grade 0" false true true;
  builtin "No-No-g1.ctb" "Norwegian grade 1" false true true;
  builtin "No-No-g2.ctb" "Norwegian grade 2" true true true;
  builtin "No-No-g3.ctb" "Norwegian grade 3" true true true;
  builtin "np-in-g1.utb" "Nepali grade 1" false true true;
  builtin "or-in-g1.utb" "Oriya grade 1" false true true;
  builtin "pl-pl-comp8.ctb" "Polish 8 dot computer braille" false true true;
  builtin "Pl-Pl-g1.utb" "Polish grade 1" false true true;
  builtin "pt-pt-comp8.ctb" "Portuguese 8 dot computer braille" false true true;
  builtin "Pt-Pt-g1.utb" "Portuguese grade 1" false true true;
  builtin "Pt-Pt-g2.ctb" "Portuguese grade 2" true true true;
  builtin "pu-in-g1.utb" "Punjabi grade 1" false true true;
  builtin "ro.ctb" "Romanian" false true true;
  builtin "ru.ctb" "Russian computer braille" false true true;
  builtin "ru-ru-g1.utb" "Russian grade 1" false true true;
  builtin "sa-in-g1.utb" "Sanskrit grade 1" false true true;
  builtin "Se-Se.ctb" "Swedish 8 dot computer braille" false true true;
  builtin "Se-Se-g1.utb" "Swedish grade 1" false true true;
  builtin "sk-g1.ctb" "Slovak grade 1" false true true;
  builtin "sl-si-comp8.ctb" "Slovenian 8 dot computer braille" false true true;
  builtin "sl-si-g1.utb" "Slovenian grade 1" false true true;
  builtin "sr-g1.ctb" "Serbian grade 1" false true true;
  builtin "ta-ta-g1.ctb" "Tamil grade 1" false true true;
  builtin "te-in-g1.utb" "Telugu grade 1" false true true;
  builtin "tr.ctb" "Turkish grade 1" false true true;
  builtin "uk.utb" "Ukrainian" false true true;
  builtin "unicode-braille.utb" "Unicode braille" false false true;
  builtin "vi-g1.ctb" "Vietnamese grade 1" false true true;
  builtin "zhcn-g1.ctb" "Chinese (China, Mandarin) grade 1" false true true;
  builtin "zhcn-g2.ctb" "Chinese (China, Mandarin) grade 2" false true true;
  builtin "zh-hk.ctb" "Chinese (Hong Kong, Cantonese)" false true true;
  builtin "zh-tw.ctb" "Chinese (Taiwan, Mandarin)" false true true
].

(** ** What the module imports *)

(** The value found under ["displayName"] in a table configuration: a
    string literal, a dictionary from language or country codes to string
    literals, or anything else (a list, a number, ...). *)
Inductive DisplayNameValue : Type :=
| DNStr (s : string)
| DNDict (d : gmap string string)
| DNOther.

(** A table configuration (the TABLE_CONFIGURATION of the docstring of
    [loadCustomTablesConfig]): each key may be missing. *)
Record TableCfg : Type := mkTableCfg {
  cfg_contracted : option bool;
  cfg_output : option bool;
  cfg_input : option bool;
  cfg_displayName : option DisplayNameValue
}.

(** What a manifest associates to a table file name: normally a table
    configuration; a top-level scalar of the .ini file gives a value that
    is not a dictionary. *)
Inductive CfgEntry : Type :=
| CfgDict (cfg : TableCfg)
| CfgNotDict.

Record Env : Type := mkEnv {
  (** the builtin [_] *)
  gettext : string -> string;
  (** [languageHandler.getLanguage()] *)
  getLanguage : string;
  (** [globalVars.appArgs.secure] *)
  secure : bool;
  (** [config.conf['development']['enableScratchpadDir']] *)
  enableScratchpadDir : bool;
  (** [config.getScratchpadDir()] *)
  getScratchpadDir : string;
  (** the [path] of each add-on of [addonHandler.getRunningAddons()] *)
  getRunningAddons : list string;
  (** [os.path.join], [os.path.isdir], [os.path.isfile] *)
  path_join : string -> string -> string;
  isdir : string -> bool;
  isfile : string -> bool;
  (** [os.listdir]: the names of the entries of the directory, or the
      exception raised ([FileNotFoundError], [PermissionError], ...) *)
  listdir : string -> exn + list string;
  (** [CustomTablesManifest(open(path, "rb")).dict()]: the items of the
      parsed manifest, or the exception of the opening or of the parsing *)
  CustomTablesManifest : string -> exn + PyDict.dict CfgEntry
}.

(** ** Strings *)

(** [s.split(sep)] for a separator of one character. *)
Fixpoint split (sep : ascii) (s : string) : list string :=
  match s with
  | EmptyString => [EmptyString]
  | String c s' =>
      if Ascii.eqb c sep then EmptyString :: split sep s'
      else
        match split sep s' with
        | [] => [String c EmptyString]
        | w :: ws => String c w :: ws
        end
  end.

(** [s.endswith(suffix)] *)
Definition endswith (s suffix : string) : bool :=
  Nat.leb (String.length suffix) (String.length s) &&
  String.eqb
    (substring (String.length s - String.length suffix) (String.length suffix) s)
    suffix.

(** ** Display name of a custom table *)

(** [bool(x)] for [x] the result of a [get] on a dictionary of strings. *)
Definition truthy (x : option string) : bool :=
  match x with
  | Some s => negb (String.eqb s "")
  | None => false
  end.

(** [tableCfg.get(key)]: [None] for a missing key; an object that is not a
    dictionary has no [get]. *)
Definition cfg_get {A} (tableCfg : CfgEntry) (key : TableCfg -> option A)
    : exn + option A :=
  match tableCfg with
  | CfgDict cfg => inr (key cfg)
  | CfgNotDict => inl AttributeError
  end.

Section custom.
Variable E : Env.

(** [_getCustomTableDisplayName] *)
Definition _getCustomTableDisplayName (fileName : string) (tableCfg : CfgEntry)
    : exn + string :=
  match cfg_get tableCfg cfg_displayName with
  | inl KeyError => inr fileName
  | inl e => inl e
  | inr (Some (DNStr value)) => inr (gettext E value)
  | inr (Some (DNDict value)) =>
      let lang := getLanguage E in
      let displayName := value !! lang in
      let displayName :=
        if negb (truthy displayName)
        then value !! (default "" (head (split "_" lang)))
        else displayName in
      let displayName :=
        if negb (truthy displayName) then value !! "en_US" else displayName in
      let displayName :=
        if negb (truthy displayName) then value !! "en" else displayName in
      let displayName :=
        if negb (truthy displayName) then Some fileName else displayName in
      inr (default fileName displayName)
  | inr _ => inl ValueError
  end.

Definition lift {A} (r : exn + A) : M A :=
  fun st =>
    match r with
    | inl e => Raise e st
    | inr a => Return a st
    end.

(** One iteration of the loop of [loadCustomTablesConfig]; the arguments
    of [addTable] are evaluated from left to right. *)
Definition loadCustomTable (item : string * CfgEntry) : M unit :=
  let '(fileName, tableCfg) := item in
  displayName ← lift (_getCustomTableDisplayName fileName tableCfg);
  contracted ← lift (cfg_get tableCfg cfg_contracted);
  output ← lift (cfg_get tableCfg cfg_output);
  input ← lift (cfg_get tableCfg cfg_input);
  addTable fileName displayName
    (default false contracted) (default true output) (default true input).

(** [loadCustomTablesConfig] *)
Definition loadCustomTablesConfig (data : PyDict.dict CfgEntry) : M unit :=
  for_each (PyDict.items data) loadCustomTable.

(** [_getCustomTablesDirs] *)
Definition candidates : list string :=
  (if negb (secure E) && enableScratchpadDir E
   then [path_join E (getScratchpadDir E) "brailleTables"]
   else [])
  ++ ((fun addon_path => path_join E addon_path "brailleTables")
        <$> getRunningAddons E).

Definition _getCustomTablesDirs : list string :=
  filter (fun dir_ => isdir E dir_ = true) candidates.

(** The body of [for fileName in dirList] in [initialize]. *)
Definition applyManifest (dir_ fileName : string) : M unit :=
  let path := path_join E dir_ fileName in
  if isfile E path && endswith fileName ".ini" then
    try_except
      (manifest ← lift (CustomTablesManifest E path);
       loadCustomTablesConfig manifest)
      (fun _ =>
         log_write ("Error while applying custom braille tables config: " ++ path))
  else mret tt.

(** The body of [for dir_ in reversed(customDirs)] in [initialize]. *)
Definition loadCustomDir (dir_ : string) : M unit :=
  match listdir E dir_ with
  | inl FileNotFoundError => log_write ("Directory not found: " ++ dir_)
  | inl e => raise e
  | inr dirList => for_each dirList (applyManifest dir_)
  end.

Definition addBuiltinTables : M unit :=
  for_each builtinTables (fun b =>
    addTable (b_fileName b) (gettext E (b_name b))
      (b_contracted b) (b_output b) (b_input b)).

(** [tablesDirs[:0] = customDirs] *)
Definition prependTablesDirs (customDirs : list string) : M unit :=
  fun st =>
    Return tt {| tablesDirs := customDirs ++ tablesDirs st;
                 _tables := _tables st;
                 logged := logged st |}.

Definition addCustomTables : M unit :=
  let customDirs := _getCustomTablesDirs in
  prependTablesDirs customDirs;;
  for_each (reverse customDirs) loadCustomDir.

(** [initialize] *)
Definition initialize : M unit :=
  addBuiltinTables;;
  addCustomTables.
End custom.

(** ** Vocabulary of the properties *)

(** The public operations of the module, as a caller may sequence them. *)
Inductive operation : Type :=
| OpAddTable (fileName displayName : string) (contracted output input : bool)
| OpGetTable (fileName : string)
| OpGetFallbackTable
| OpListTables
| OpInitialize
| OpTerminate
| OpLoadCustomTablesConfig (data : PyDict.dict CfgEntry).

(** The state a call leaves behind, whether it returns or raises. *)
Definition run (E : Env) (o : operation) (st : State) : State :=
  match o with
  | OpAddTable f d c out inp => final_state (addTable f d c out inp st)
  | OpGetTable f => final_state (getTable f st)
  | OpGetFallbackTable => final_state (getFallbackTable st)
  | OpListTables => st
  | OpInitialize => final_state (initialize E st)
  | OpTerminate => final_state (terminate st)
  | OpLoadCustomTablesConfig data => final_state (loadCustomTablesConfig E data st)
  end.

Inductive reachable (E : Env) : State -> Prop :=
| reachable_initial : reachable E initialState
| reachable_run o st : reachable E st -> reachable E (run E o st).

(** A registered table is usable: for output or for input. *)
Definition usable (t : BrailleTable) : bool := output t || input t.

(** The table that [loadCustomTablesConfig] registers for one item of a
    manifest, or the exception this item raises. *)
Definition customTable (E : Env) (fileName : string) (tableCfg : CfgEntry)
    : exn + BrailleTable :=
  match _getCustomTableDisplayName E fileName tableCfg, tableCfg with
  | inr name, CfgDict cfg =>
      let t := {| fileName := fileName;
                  displayName := name;
                  contracted := default false (cfg_contracted cfg);
                  output := default true (cfg_output cfg);
                  input := default true (cfg_input cfg) |} in
      if usable t then inr t else inl ValueError
  | inl e, _ => inl e
  | inr _, CfgNotDict => inl AttributeError
  end.

(** A manifest every item of which registers a table. *)
Definition applies (E : Env) (data : PyDict.dict CfgEntry) : Prop :=
  ∀ f cfg, (f, cfg) ∈ data → ∃ t, customTable E f cfg = inr t.

(** [fileName] of directory [dir_] is a manifest that [initialize] reads,
    and it parses to [data]. *)
Definition manifest_of (E : Env) (dir_ fileName : string)
    (data : PyDict.dict CfgEntry) : Prop :=
  isfile E (path_join E dir_ fileName) = true ∧
  endswith fileName ".ini" = true ∧
  CustomTablesManifest E (path_join E dir_ fileName) = inr data.

(** A file of a directory defines a table named [f]. *)
Definition file_defines (E : Env) (dir_ fileName f : string) : Prop :=
  ∃ data, manifest_of E dir_ fileName data ∧ f ∈ PyDict.keys data.

(** A directory defines a table named [f]. *)
Definition dir_defines (E : Env) (dir_ f : string) : Prop :=
  ∃ files fileName,
    listdir E dir_ = inr files ∧ fileName ∈ files ∧
    file_defines E dir_ fileName f.

(** Listing a directory either succeeds or raises [FileNotFoundError], the
    exception that [initialize] handles. *)
Definition listdir_finds_or_misses (E : Env) : Prop :=
  ∀ dir_ e, listdir E dir_ = inl e → e = FileNotFoundError.

(** The part of the active language before the first underscore. *)
Definition language_prefix (lang p : string) : Prop :=
  (∀ n, String.get n p ≠ Some "_"%char) ∧
  (lang = p ∨ ∃ rest, lang = String.append p (String "_" rest)).

(** The value of a key is missing or is the empty string. *)
Definition missing (value : gmap string string) (k : string) : Prop :=
  value !! k = None ∨ value !! k = Some "".

(** The resolution of the display name as a chain on the membership of the
    keys alone (a present key gives its value, whatever it is). *)
Definition resolve_by_membership (value : gmap string string)
    (lang fileName : string) : string :=
  match value !! lang with
  | Some s => s
  | None =>
    match value !! default "" (head (split "_" lang)) with
    | Some s => s
    | None =>
      match value !! "en_US" with
      | Some s => s
      | None =>
        match value !! "en" with
        | Some s => s
        | None => fileName
        end
      end
    end
  end.

(** The state after [_tables[fileName] = table]. *)
Definition register (fileName : string) (table : BrailleTable) (st : State)
    : State :=
  {| tablesDirs := tablesDirs st;
     _tables := PyDict.set (_tables st) fileName table;
     logged := logged st |}.

(** Every registered table is usable. *)
Definition all_usable (st : State) : Prop :=
  ∀ t, t ∈ PyDict.values (_tables st) → usable t = true.

(** [st'] has a table for every file name that [st] has a table for. *)
Definition keeps_keys (st st' : State) : Prop :=
  ∀ f, f ∈ PyDict.keys (_tables st) → f ∈ PyDict.keys (_tables st').

(** The order of [str]: [a <= b]. *)
Definition str_le (a b : string) : Prop := String.leb a b = true.

(** The order of the keys of a sort. *)
Definition key_le {A} (key : A -> string) (a b : A) : Prop :=
  str_le (key a) (key b).

(** ** A sample installation

    A scratchpad directory and two running add-ons [a] and [b]. The
    scratchpad and add-on [a] both define the table [foo.ctb]; add-on [a]
    also has a manifest that does not parse, and add-on [b] has a manifest
    that defines the table [bar.ctb]. *)
Definition sample_join (a b : string) : string :=
  String.append a (String.append "\" b).

Definition sample_names : gmap string string :=
  <["en" := "X"]> (<["en_US" := "Y"]> (<["de" := "Z"]> ∅)).

Definition sample_cfg (value : option DisplayNameValue) : CfgEntry :=
  CfgDict {| cfg_contracted := None; cfg_output := None; cfg_input := None;
             cfg_displayName := value |}.

Definition sample_listdir (dir_ : string) : exn + list string :=
  if String.eqb dir_ "C:\scratch\brailleTables" then inr ["mine.ini"; "notes.txt"]
  else if String.eqb dir_ "C:\addons\a\brailleTables" then inr ["broken.ini"; "a.ini"]
  else if String.eqb dir_ "C:\addons\b\brailleTables" then inr ["b.ini"]
  else inl FileNotFoundError.

Definition sample_manifest (path : string) : exn + PyDict.dict CfgEntry :=
  if String.eqb path "C:\scratch\brailleTables\mine.ini" then
    inr [("foo.ctb", sample_cfg (Some (DNStr "Foo of the scratchpad")))]
  else if String.eqb path "C:\addons\a\brailleTables\a.ini" then
    inr [("foo.ctb", sample_cfg (Some (DNStr "Foo of add-on a")))]
  else if String.eqb path "C:\addons\b\brailleTables\b.ini" then
    inr [("bar.ctb", sample_cfg (Some (DNDict sample_names)))]
  else inl (ManifestError "parse error").

Definition sampleEnv (lang : string) : Env :=
  {| gettext := fun s => s;
     getLanguage := lang;
     secure := false;
     enableScratchpadDir := true;
     getScratchpadDir := "C:\scratch";
     getRunningAddons := ["C:\addons\a"; "C:\addons\b"];
     path_join := sample_join;
     isdir := fun _ => true;
     isfile := fun _ => true;
     listdir := sample_listdir;
     CustomTablesManifest := sample_manifest |}.

(** A table configuration that differs from [cfg] by its display name. *)
Definition with_displayName (cfg : TableCfg) (value : option DisplayNameValue)
    : TableCfg :=
  {| cfg_contracted := cfg_contracted cfg;
     cfg_output := cfg_output cfg;
     cfg_input := cfg_input cfg;
     cfg_displayName := value |}.

(** The display names of which the empty ones are removed. *)
Definition nonempty_names (value : gmap string string) : gmap string string :=
  filter (λ kv, kv.2 ≠ "") value.

(** Display names with an empty German name. *)
Definition empty_de_names : gmap string string :=
  <["de" := ""]> (<["en" := "X"]> ∅).

(** ** Vocabulary of the further properties *)

(** The elementary changes of the state that registering and loading make:
    a usable table goes under its own file name, a record goes to the log,
    directories go before the directory list. *)
Inductive change : State -> State -> Prop :=
| change_register f t s :
    fileName t = f -> usable t = true -> change s (register f t s)
| change_log msg s : change s (final_state (log_write msg s))
| change_dirs dirs s : change s (final_state (prependTablesDirs dirs s)).

Definition evolves : State -> State -> Prop := rtc change.

(** The registry is a dictionary whose keys are the file names of its
    tables. *)
Definition keyed (st : State) : Prop :=
  PyDict.wf (_tables st) ∧ ∀ f t, (f, t) ∈ _tables st → fileName t = f.

(** Two states with the same globals (the log apart). *)
Definition same_globals (s1 s2 : State) : Prop :=
  tablesDirs s1 = tablesDirs s2 ∧ _tables s1 = _tables s2.

(** The files of a listing that [initialize] reads as manifests. *)
Definition is_manifest (E : Env) (dir_ fileName : string) : bool :=
  isfile E (path_join E dir_ fileName) && endswith fileName ".ini".

(** The record that [initialize] logs for a manifest that fails. *)
Definition manifest_error_record (E : Env) (dir_ fileName : string) : string :=
  String.append "Error while applying custom braille tables config: "
    (path_join E dir_ fileName).

(** The table that a builtin call registers. *)
Definition builtinTable (E : Env) (b : builtin_call) : BrailleTable :=
  {| fileName := b_fileName b;
     displayName := gettext E (b_name b);
     contracted := b_contracted b;
     output := b_output b;
     input := b_input b |}.

(** Two outcomes that agree but for the log. *)
Definition same_outcome (o1 o2 : outcome ()) : Prop :=
  match o1, o2 with
  | Return _ s1, Return _ s2 => same_globals s1 s2
  | Raise e1 s1, Raise e2 s2 => e1 = e2 ∧ same_globals s1 s2
  | _, _ => False
  end.

(** A computation that does not read the log. *)
Definition log_blind (m : M ()) : Prop :=
  ∀ s1 s2, same_globals s1 s2 → same_outcome (m s1) (m s2).

(** The sample installation, the directory of add-on [a] being one that
    [os.listdir] may not read. *)
Definition lockedEnv : Env :=
  {| gettext := fun s => s;
     getLanguage := "en";
     secure := false;
     enableScratchpadDir := true;
     getScratchpadDir := "C:\scratch";
     getRunningAddons := ["C:\addons\a"; "C:\addons\b"];
     path_join := sample_join;
     isdir := fun _ => true;
     isfile := fun _ => true;
     listdir := fun dir_ =>
       if String.eqb dir_ "C:\addons\a\brailleTables"
       then inl (ManifestError "PermissionError")
       else sample_listdir dir_;
     CustomTablesManifest := sample_manifest |}.

(** An installation with one add-on, two manifests of which define the
    table [foo.ctb]. *)
Definition twinEnv : Env :=
  {| gettext := fun s => s;
     getLanguage := "en";
     secure := true;
     enableScratchpadDir := false;
     getScratchpadDir := "C:\scratch";
     getRunningAddons := ["C:\addons\a"];
     path_join := sample_join;
     isdir := fun _ => true;
     isfile := fun _ => true;
     listdir := fun dir_ =>
       if String.eqb dir_ "C:\addons\a\brailleTables"
       then inr ["a.ini"; "z.ini"]
       else inl FileNotFoundError;
     CustomTablesManifest := fun path =>
       if String.eqb path "C:\addons\a\brailleTables\a.ini" then
         inr [("foo.ctb", sample_cfg (Some (DNStr "Foo of a.ini")))]
       else if String.eqb path "C:\addons\a\brailleTables\z.ini" then
         inr [("foo.ctb", sample_cfg (Some (DNStr "Foo of z.ini")))]
       else inl (ManifestError "parse error") |}.

(** [for k, v in l: d[k] = v] *)
Definition set_all {V} (d : PyDict.dict V) (l : list (string * V))
    : PyDict.dict V :=
  foldl (λ d kv, PyDict.set d kv.1 kv.2) d l.

(** The value that the last item of [l] with the key [k] gives. *)
Fixpoint last_binding {V} (l : list (string * V)) (k : string) : option V :=
  match l with
  | [] => None
  | (k0, v0) :: l' =>
      match last_binding l' k with
      | Some v => Some v
      | None => if String.eqb k0 k then Some v0 else None
      end
  end.

(** A computation whose registrations, and whether it returns, do not
    depend on the state it starts from. *)
Definition uniform (m : M ()) : Prop :=
  ∃ (l : list (string * BrailleTable)) (r : bool),
    ∀ s, _tables (final_state (m s)) = set_all (_tables s) l ∧
         returns (m s) = r.

(** ** An alphabetical order

    The module has no collation of its own: [listTables] compares the
    display names as [str] does. For comparison, the order in which the
    collation of a locale puts unaccented Latin letters: alphabetically,
    whatever the case ([alpha] before [Zulu]). *)
Definition casefold_ascii (c : ascii) : ascii :=
  let n := nat_of_ascii c in
  if Nat.leb 65 n && Nat.leb n 90 then ascii_of_nat (n + 32) else c.

Fixpoint casefold (s : string) : string :=
  match s with
  | EmptyString => EmptyString
  | String c s' => String (casefold_ascii c) (casefold s')
  end.

Definition alphabetical_le (a b : string) : Prop :=
  str_le (casefold a) (casefold b).

(** A list of tables in the order [le] of their display names. *)
Definition ordered_by (le : string -> string -> Prop)
    (l : list BrailleTable) : Prop :=
  ∀ i j a b, i < j → l !! i = Some a → l !! j = Some b →
    le (displayName a) (displayName b).

(** An installation with a scratchpad, whose manifest parses to [mine],
    and one add-on, which defines the table [foo.ctb]. *)
Definition scratchpadEnv (mine : PyDict.dict CfgEntry) : Env :=
  {| gettext := fun s => s;
     getLanguage := "en";
     secure := false;
     enableScratchpadDir := true;
     getScratchpadDir := "C:\scratch";
     getRunningAddons := ["C:\addons\a"];
     path_join := sample_join;
     isdir := fun _ => true;
     isfile := fun _ => true;
     listdir := fun dir_ =>
       if String.eqb dir_ "C:\scratch\brailleTables" then inr ["mine.ini"]
       else if String.eqb dir_ "C:\addons\a\brailleTables" then inr ["a.ini"]
       else inl FileNotFoundError;
     CustomTablesManifest := fun path =>
       if String.eqb path "C:\scratch\brailleTables\mine.ini" then inr mine
       else if String.eqb path "C:\addons\a\brailleTables\a.ini" then
         inr [("foo.ctb", sample_cfg (Some (DNStr "Foo of add-on a")))]
       else inl (ManifestError "parse error") |}.

(** The manifest of the scratchpad has, before [foo.ctb], a table whose
    display name is a list. *)
Definition listNameEnv : Env :=
  scratchpadEnv
    [("bar.ctb", sample_cfg (Some DNOther));
     ("foo.ctb", sample_cfg (Some (DNStr "Foo of the scratchpad")))].

(** The manifest of the scratchpad has this table after [foo.ctb], and
    another table before. *)
Definition listNameLastEnv : Env :=
  scratchpadEnv
    [("baz.ctb", sample_cfg (Some (DNStr "Baz")));
     ("foo.ctb", sample_cfg (Some (DNStr "Foo of the scratchpad")));
     ("bar.ctb", sample_cfg (Some DNOther))].

(** * Properties *)

(** ** Dictionaries *)

Module PyDictFacts.
Import PyDict.
Section facts.
Context {V : Type}.
Implicit Types (d : dict V) (k : string) (v : V).

Lemma get_set_eq d k v : get (set d k v) k = Some v.
Proof.
  induction d as [|[k' v'] d IH]; simpl.
  - by rewrite String.eqb_refl.
  - destruct (String.eqb k' k) eqn:Hk; simpl; rewrite Hk; done.
Qed.

Lemma get_set_ne d k k' v : k ≠ k' → get (set d k v) k' = get d k'.
Proof.
  intros Hne. induction d as [|[k0 v0] d IH]; simpl.
  - destruct (String.eqb_spec k k'); done.
  - destruct (String.eqb_spec k0 k) as [->|Hk0]; simpl.
    + destruct (String.eqb_spec k k'); done.
    + by rewrite IH.
Qed.

Lemma get_None d k : get d k = None ↔ k ∉ keys d.
Proof.
  unfold keys. induction d as [|[k' v'] d IH]; simpl.
  - split; [intros _; apply not_elem_of_nil | done].
  - rewrite not_elem_of_cons.
    destruct (String.eqb_spec k' k) as [->|Hk].
    + split; [done | intros [? _]; done].
    + rewrite IH. split; [intros ?; split; [congruence | done] | by intros [_ ?]].
Qed.

Lemma get_is_Some d k : is_Some (get d k) ↔ k ∈ keys d.
Proof.
  destruct (get d k) eqn:Hg.
  - split; [intros _|eauto].
    destruct (decide (k ∈ keys d)) as [|Hn]; [done|].
    apply get_None in Hn. congruence.
  - apply get_None in Hg. split; [intros [? ?]; done | done].
Qed.

Lemma get_Some_elem_of d k v : get d k = Some v → (k, v) ∈ d.
Proof.
  induction d as [|[k' v'] d IH]; simpl; [done|].
  destruct (String.eqb_spec k' k) as [->|Hk].
  - intros [= ->]. apply elem_of_cons; by left.
  - intros Hg. apply elem_of_cons; right; auto.
Qed.

Lemma elem_of_get d k v : wf d → (k, v) ∈ d → get d k = Some v.
Proof.
  unfold wf, keys. induction d as [|[k' v'] d IH]; simpl.
  - intros _ Hin. by apply elem_of_nil in Hin.
  - rewrite NoDup_cons. intros [Hk' Hnd] Hin.
    apply elem_of_cons in Hin as [[= -> ->]|Hin].
    + by rewrite String.eqb_refl.
    + destruct (String.eqb_spec k' k) as [->|Hk]; [|auto].
      exfalso. apply Hk'. apply list_elem_of_fmap. by exists (k, v).
Qed.

Lemma get_Some_values d k v : get d k = Some v → v ∈ values d.
Proof.
  intros Hg%get_Some_elem_of. unfold values.
  apply list_elem_of_fmap. by exists (k, v).
Qed.

Lemma elem_of_values_set d k v x :
  x ∈ values (set d k v) → x = v ∨ x ∈ values d.
Proof.
  unfold values. induction d as [|[k' v'] d IH]; simpl.
  - rewrite elem_of_cons. intros [->|Hx]; [by left | by right].
  - destruct (String.eqb k' k); simpl; rewrite !elem_of_cons; intuition.
Qed.

Lemma elem_of_keys_set d k v k' :
  k' ∈ keys (set d k v) ↔ k' = k ∨ k' ∈ keys d.
Proof.
  rewrite <- !get_is_Some.
  destruct (decide (k = k')) as [->|Hne].
  - rewrite get_set_eq. split; [by left | eauto].
  - rewrite get_set_ne by done. split; [by right | intros [?|?]; congruence].
Qed.

Lemma wf_set d k v : wf d → wf (set d k v).
Proof.
  unfold wf, keys. induction d as [|[k' v'] d IH]; simpl.
  - intros _. apply NoDup_singleton.
  - rewrite NoDup_cons. intros [Hk' Hnd].
    destruct (String.eqb_spec k' k) as [->|Hk]; simpl.
    + by apply NoDup_cons.
    + apply NoDup_cons. split; [|auto].
      intros Hin. apply (elem_of_keys_set d k v k') in Hin as [?|?]; done.
Qed.

(** Overwriting keeps the keys and their order. *)
Lemma keys_set_present d k v : k ∈ keys d → keys (set d k v) = keys d.
Proof.
  unfold keys. induction d as [|[k' v'] d IH]; simpl.
  - intros Hin. by apply elem_of_nil in Hin.
  - destruct (String.eqb_spec k' k) as [->|Hk]; simpl; [done|].
    rewrite elem_of_cons. intros [?|Hin]; [done|]. f_equal. by apply IH.
Qed.

(** A new key goes last. *)
Lemma set_absent d k v : k ∉ keys d → set d k v = d ++ [(k, v)].
Proof.
  unfold keys. induction d as [|[k' v'] d IH]; simpl; [done|].
  rewrite not_elem_of_cons. intros [Hk Hin].
  destruct (String.eqb_spec k' k) as [->|_]; [done|]. f_equal. by apply IH.
Qed.
End facts.
End PyDictFacts.

(** ** Computations *)

Lemma bind_Return {A B} (m : M A) (k : A → M B) st a st' :
  m st = Return a st' → (m ≫= k) st = k a st'.
Proof. intros H. unfold mbind, M_bind. by rewrite H. Qed.

Lemma bind_Raise {A B} (m : M A) (k : A → M B) st e st' :
  m st = Raise e st' → (m ≫= k) st = Raise e st'.
Proof. intros H. unfold mbind, M_bind. by rewrite H. Qed.

Lemma returns_Return {A} (o : outcome A) :
  returns o = true → ∃ a, o = Return a (final_state o).
Proof. destruct o; simpl; [eauto | done]. Qed.

Lemma returns_unit (o : outcome ()) :
  returns o = true → o = Return tt (final_state o).
Proof. destruct o as [[] ?|]; simpl; done. Qed.

Section for_each.
Context {A : Type} (body : A → M unit).

Lemma for_each_cons x xs st :
  for_each (x :: xs) body st =
    match body x st with
    | Return _ st' => for_each xs body st'
    | Raise e st' => Raise e st'
    end.
Proof. done. Qed.

(** A loop whose body never raises never raises. *)
Lemma for_each_returns xs st :
  (∀ x s, x ∈ xs → returns (body x s) = true) →
  returns (for_each xs body st) = true.
Proof.
  revert st. induction xs as [|x xs IH]; intros st Hb; [done|].
  rewrite for_each_cons.
  pose proof (Hb x st ltac:(left)) as Hx.
  destruct (body x st); [|done].
  apply IH. intros y s Hy. apply Hb. by right.
Qed.

(** What every iteration preserves, the loop preserves, also when an
    iteration raises and ends the loop. *)
Lemma for_each_preserves (P : State → Prop) xs st :
  (∀ x s, x ∈ xs → P s → P (final_state (body x s))) →
  P st → P (final_state (for_each xs body st)).
Proof.
  revert st. induction xs as [|x xs IH]; intros st Hb Hst; [done|].
  rewrite for_each_cons.
  pose proof (Hb x st ltac:(left) Hst) as Hx.
  destruct (body x st); [|done].
  apply IH; [|done]. intros y s Hy. apply Hb. by right.
Qed.

(** When the iterations of a first part return, the loop goes on with
    the second part from the state that the first part leaves. *)
Lemma for_each_app xs ys st :
  (∀ x s, x ∈ xs → returns (body x s) = true) →
  for_each (xs ++ ys) body st =
    for_each ys body (final_state (for_each xs body st)).
Proof.
  revert st. induction xs as [|x xs IH]; intros st Hb; [done|].
  simpl app. rewrite !for_each_cons.
  pose proof (Hb x st ltac:(left)) as Hx.
  destruct (body x st); [|done].
  apply IH. intros y s Hy. apply Hb. by right.
Qed.
End for_each.

(** ** The registry *)

Lemma addTable_usable f d c o i st :
  o || i = true →
  addTable f d c o i st = Return tt (register f (mkBrailleTable f d c o i) st).
Proof. intros H. unfold addTable. destruct o, i; done. Qed.

Lemma addTable_unusable f d c st :
  addTable f d c false false st = Raise ValueError st.
Proof. done. Qed.

Lemma addTable_inv f d c o i st st' :
  addTable f d c o i st = Return tt st' →
  o || i = true ∧ st' = register f (mkBrailleTable f d c o i) st.
Proof. unfold addTable. destruct o, i; simpl; intros [= <-]; done. Qed.

Lemma all_usable_register f t st :
  usable t = true → all_usable st → all_usable (register f t st).
Proof.
  intros Ht Hst x Hx. simpl in Hx.
  apply PyDictFacts.elem_of_values_set in Hx as [->|Hx]; auto.
Qed.

Lemma all_usable_addTable f d c o i st :
  all_usable st → all_usable (final_state (addTable f d c o i st)).
Proof.
  intros Hst. destruct (o || i) eqn:Hoi.
  - rewrite addTable_usable by done. by apply all_usable_register.
  - apply orb_false_iff in Hoi as [-> ->]. done.
Qed.

Lemma keeps_keys_refl st : keeps_keys st st.
Proof. by intros f. Qed.

Lemma keeps_keys_trans st1 st2 st3 :
  keeps_keys st1 st2 → keeps_keys st2 st3 → keeps_keys st1 st3.
Proof. intros H1 H2 f Hf. auto. Qed.

Lemma keeps_keys_register f t st : keeps_keys st (register f t st).
Proof. intros g Hg. simpl. apply PyDictFacts.elem_of_keys_set. by right. Qed.

(** ** Loading custom tables *)

Section custom_facts.
Variable E : Env.

Lemma customTable_inr f cfg t :
  customTable E f cfg = inr t → fileName t = f ∧ usable t = true.
Proof.
  unfold customTable.
  destruct (_getCustomTableDisplayName E f cfg) as [e|name]; [done|].
  destruct cfg as [c|]; [|done].
  match goal with |- context [usable ?x] => destruct (usable x) eqn:Hu end;
    [|done].
  intros [= <-]. done.
Qed.

(** One item of a manifest either registers its table or raises and
    leaves the state as it is. *)
Lemma loadCustomTable_spec f cfg st :
  loadCustomTable E (f, cfg) st =
    match customTable E f cfg with
    | inr t => Return tt (register f t st)
    | inl e => Raise e st
    end.
Proof.
  unfold loadCustomTable, customTable.
  destruct cfg as [c|].
  - destruct (_getCustomTableDisplayName E f (CfgDict c)) as [e|name] eqn:Hn.
    + by apply bind_Raise.
    + erewrite bind_Return; [|reflexivity].
      unfold usable; simpl.
      destruct (default true (cfg_output c) || default true (cfg_input c))
        eqn:Hu.
      * by rewrite <- (addTable_usable f name _ _ _ st Hu).
      * apply orb_false_iff in Hu as [Ho Hi].
        unfold mbind, M_bind, lift, addTable; simpl. by rewrite Ho, Hi.
  - done.
Qed.

Lemma loadCustomTablesConfig_cons f cfg data st :
  loadCustomTablesConfig E ((f, cfg) :: data) st =
    match customTable E f cfg with
    | inr t => loadCustomTablesConfig E data (register f t st)
    | inl e => Raise e st
    end.
Proof.
  unfold loadCustomTablesConfig, PyDict.items.
  rewrite for_each_cons, loadCustomTable_spec.
  by destruct (customTable E f cfg).
Qed.

(** A manifest whose items all register a table is applied without an
    exception. *)
Lemma loadCustomTablesConfig_returns data st :
  applies E data → returns (loadCustomTablesConfig E data st) = true.
Proof.
  intros Ha. apply for_each_returns. intros [f cfg] s Hin.
  rewrite loadCustomTable_spec.
  destruct (Ha f cfg Hin) as [t ->]. done.
Qed.

(** The iteration of a file never raises: [except Exception]. *)
Lemma applyManifest_returns dir_ fileName st :
  returns (applyManifest E dir_ fileName st) = true.
Proof.
  unfold applyManifest.
  destruct (isfile E _ && endswith fileName ".ini"); [|done].
  unfold try_except.
  match goal with |- context [match ?o with _ => _ end] => destruct o end; done.
Qed.

(** The iteration of a directory raises what [os.listdir] raises, but
    for [FileNotFoundError]. *)
Lemma loadCustomDir_returns dir_ st :
  (∀ e, listdir E dir_ = inl e → e = FileNotFoundError) →
  returns (loadCustomDir E dir_ st) = true.
Proof.
  intros Hl. unfold loadCustomDir.
  destruct (listdir E dir_) as [e|files] eqn:Hd.
  - by rewrite (Hl e eq_refl).
  - apply for_each_returns. intros. apply applyManifest_returns.
Qed.

Lemma loadCustomDir_raises dir_ e st :
  listdir E dir_ = inl e → e ≠ FileNotFoundError →
  loadCustomDir E dir_ st = Raise e st.
Proof.
  intros Hd He. unfold loadCustomDir. rewrite Hd. by destruct e.
Qed.

Lemma addCustomTables_returns st :
  listdir_finds_or_misses E → returns (addCustomTables E st) = true.
Proof.
  intros Hl. unfold addCustomTables.
  erewrite bind_Return; [|reflexivity].
  apply for_each_returns. intros d s _.
  apply loadCustomDir_returns. apply Hl.
Qed.

Lemma addBuiltinTables_returns st : returns (addBuiltinTables E st) = true.
Proof.
  apply for_each_returns. intros b s Hb.
  assert (Forall (λ b, b_output b || b_input b = true) builtinTables) as Hall
    by (apply Forall_forall; intros x Hx%list_elem_of_In;
        apply (proj1 (forallb_forall (λ b, b_output b || b_input b)
                        builtinTables) eq_refl x Hx)).
  rewrite Forall_forall in Hall.
  by rewrite addTable_usable by auto.
Qed.

Lemma initialize_eq st :
  initialize E st =
    addCustomTables E (final_state (addBuiltinTables E st)).
Proof.
  unfold initialize.
  pose proof (returns_unit _ (addBuiltinTables_returns st)) as Hb.
  erewrite bind_Return; [|exact Hb]. done.
Qed.

(** [initialize] raises nothing but what [os.listdir] raises and it does
    not handle. *)
Lemma initialize_returns st :
  listdir_finds_or_misses E → returns (initialize E st) = true.
Proof. intros Hl. rewrite initialize_eq. by apply addCustomTables_returns. Qed.

(** What registrations and log records preserve, the load preserves, up
    to the point it reaches. *)
Section preserves.
Variables (P : State → Prop) (Q : string → Prop).
Hypothesis P_log : ∀ s msg, P s → P (final_state (log_write msg s)).
Hypothesis P_dirs :
  ∀ s dirs, P s → P (final_state (prependTablesDirs dirs s)).
Hypothesis P_register :
  ∀ s f t, Q f → usable t = true → P s → P (register f t s).

Lemma loadCustomTablesConfig_preserves data st :
  (∀ f, f ∈ PyDict.keys data → Q f) →
  P st → P (final_state (loadCustomTablesConfig E data st)).
Proof.
  intros HQ. apply for_each_preserves. intros [f cfg] s Hin Hs.
  rewrite loadCustomTable_spec.
  destruct (customTable E f cfg) as [e|t] eqn:Ht; [done|]. simpl.
  apply customTable_inr in Ht as [_ Hu].
  apply P_register; [|done..].
  apply HQ. apply list_elem_of_fmap. by exists (f, cfg).
Qed.

Lemma applyManifest_preserves dir_ fileName st :
  (∀ f, file_defines E dir_ fileName f → Q f) →
  P st → P (final_state (applyManifest E dir_ fileName st)).
Proof.
  intros HQ Hst. unfold applyManifest.
  destruct (isfile E _) eqn:Hfile; [|done].
  destruct (endswith fileName ".ini") eqn:Hini; [|done]. simpl.
  unfold try_except, mbind, M_bind, lift.
  destruct (CustomTablesManifest E _) as [e|data] eqn:Hm.
  - by apply P_log.
  - assert (P (final_state (loadCustomTablesConfig E data st))) as HP.
    { apply loadCustomTablesConfig_preserves; [|done].
      intros f Hf. apply HQ. by exists data. }
    destruct (loadCustomTablesConfig E data st); [done|]. by apply P_log.
Qed.

Lemma loadCustomDir_preserves dir_ st :
  (∀ f, dir_defines E dir_ f → Q f) →
  P st → P (final_state (loadCustomDir E dir_ st)).
Proof.
  intros HQ Hst. unfold loadCustomDir.
  destruct (listdir E dir_) as [e|files] eqn:Hl.
  - destruct e; first [by apply P_log | exact Hst].
  - apply for_each_preserves; [|done]. intros m s Hm Hs.
    apply applyManifest_preserves; [|done].
    intros f Hf. apply HQ. by exists files, m.
Qed.

Lemma loadCustomDirs_preserves dirs st :
  (∀ d f, d ∈ dirs → dir_defines E d f → Q f) →
  P st → P (final_state (for_each dirs (loadCustomDir E) st)).
Proof.
  intros HQ. apply for_each_preserves. intros d s Hd Hs.
  apply loadCustomDir_preserves; [|done]. intros f. by apply HQ.
Qed.

Lemma addCustomTables_preserves st :
  (∀ d f, d ∈ _getCustomTablesDirs E → dir_defines E d f → Q f) →
  P st → P (final_state (addCustomTables E st)).
Proof.
  intros HQ Hst. unfold addCustomTables.
  erewrite bind_Return; [|reflexivity].
  apply loadCustomDirs_preserves; [|by apply (P_dirs st)].
  intros d f Hd. apply HQ. by apply elem_of_reverse.
Qed.

Lemma addBuiltinTables_preserves st :
  (∀ b, b ∈ builtinTables → Q (b_fileName b)) →
  P st → P (final_state (addBuiltinTables E st)).
Proof.
  intros HQ. apply for_each_preserves. intros b s Hb Hs.
  destruct (b_output b || b_input b) eqn:Hu.
  - rewrite addTable_usable by done. by apply P_register; auto.
  - apply orb_false_iff in Hu as [-> ->]. done.
Qed.
End preserves.
End custom_facts.

(** ** The order of strings *)

Lemma ascii_compare_refl (a : ascii) : Ascii.compare a a = Eq.
Proof. unfold Ascii.compare. apply N.compare_refl. Qed.

Lemma ascii_compare_lt_trans (a b c : ascii) :
  Ascii.compare a b = Lt → Ascii.compare b c = Lt → Ascii.compare a c = Lt.
Proof.
  unfold Ascii.compare. rewrite !N.compare_lt_iff. apply N.lt_trans.
Qed.

Lemma string_compare_refl (s : string) : String.compare s s = Eq.
Proof. induction s as [|a s IH]; simpl; [done|]. by rewrite ascii_compare_refl. Qed.

Lemma string_compare_lt_trans (s1 s2 s3 : string) :
  String.compare s1 s2 = Lt → String.compare s2 s3 = Lt →
  String.compare s1 s3 = Lt.
Proof.
  revert s2 s3. induction s1 as [|a s1 IH]; intros [|b s2] [|c s3]; simpl;
    try done.
  destruct (Ascii.compare a b) eqn:Hab; [|clear IH|done].
  - apply Ascii.compare_eq_iff in Hab as ->.
    destruct (Ascii.compare b c); [apply IH|done..].
  - intros _. destruct (Ascii.compare b c) eqn:Hbc; [| |done].
    + apply Ascii.compare_eq_iff in Hbc as <-. by rewrite Hab.
    + by rewrite (ascii_compare_lt_trans a b c).
Qed.

Lemma str_le_refl (a : string) : str_le a a.
Proof. unfold str_le, String.leb. by rewrite string_compare_refl. Qed.

Lemma str_le_trans (a b c : string) : str_le a b → str_le b c → str_le a c.
Proof.
  unfold str_le, String.leb. intros Hab Hbc.
  destruct (String.compare a b) eqn:Eab; [| |done].
  - by apply String.compare_eq_iff in Eab as ->.
  - destruct (String.compare b c) eqn:Ebc; [| |done].
    + apply String.compare_eq_iff in Ebc as <-. by rewrite Eab.
    + by rewrite (string_compare_lt_trans a b c).
Qed.

Lemma ltb_false_str_le (a b : string) : String.ltb a b = false → str_le b a.
Proof.
  unfold str_le, String.ltb, String.leb. rewrite (String.compare_antisym b a).
  by destruct (String.compare a b).
Qed.

Lemma ltb_true_str_le (a b : string) : String.ltb a b = true → str_le a b.
Proof.
  unfold str_le, String.ltb, String.leb. by destruct (String.compare a b).
Qed.

Lemma ltb_true_ne (a b : string) : String.ltb a b = true → a ≠ b.
Proof.
  unfold String.ltb. intros H ->. by rewrite string_compare_refl in H.
Qed.

(** ** Sorting *)

Section sorted_facts.
Context {A : Type} (key : A → string).

#[local] Abbreviation key_le := (key_le key).

Lemma insert_sorted_perm x l : insert_sorted key x l ≡ₚ x :: l.
Proof.
  induction l as [|y l IH]; simpl; [done|].
  destruct (String.ltb (key y) (key x)); [|done].
  rewrite IH. apply Permutation_swap.
Qed.

Lemma sorted_perm l : sorted key l ≡ₚ l.
Proof.
  induction l as [|x l IH]; simpl; [done|].
  by rewrite insert_sorted_perm, IH.
Qed.

Lemma insert_sorted_StronglySorted x l :
  StronglySorted key_le l → StronglySorted key_le (insert_sorted key x l).
Proof.
  induction 1 as [|y l Hl IH Hy]; simpl.
  - repeat constructor.
  - destruct (String.ltb (key y) (key x)) eqn:Hlt.
    + constructor; [done|].
      rewrite insert_sorted_perm. constructor; [|done].
      by apply ltb_true_str_le.
    + apply ltb_false_str_le in Hlt.
      constructor; [by constructor|].
      constructor; [done|].
      eapply Forall_impl; [exact Hy|].
      intros z Hz. by apply (str_le_trans _ (key y)).
Qed.

Lemma sorted_StronglySorted l : StronglySorted key_le (sorted key l).
Proof.
  induction l as [|x l IH]; simpl; [constructor|].
  by apply insert_sorted_StronglySorted.
Qed.

(** The sort is stable: the elements of equal key keep their order. *)
Lemma insert_sorted_stable k x l :
  filter (λ y, key y = k) (insert_sorted key x l) =
  filter (λ y, key y = k) (x :: l).
Proof.
  induction l as [|y l IH]; simpl; [done|].
  destruct (String.ltb (key y) (key x)) eqn:Hlt; [|done].
  apply ltb_true_ne in Hlt.
  rewrite (filter_cons _ y), IH, !(filter_cons _ x), !(filter_cons _ y).
  destruct (decide (key y = k)), (decide (key x = k)); congruence.
Qed.

Lemma sorted_stable k l :
  filter (λ y, key y = k) (sorted key l) = filter (λ y, key y = k) l.
Proof.
  induction l as [|x l IH]; simpl; [done|].
  rewrite insert_sorted_stable, !(filter_cons _ x), IH. done.
Qed.

Lemma StronglySorted_lookup_le (l : list A) i j a b :
  StronglySorted key_le l → i < j → l !! i = Some a → l !! j = Some b →
  key_le a b.
Proof.
  intros Hl. revert i j. induction Hl as [|x l Hl IH Hx]; intros i j Hij Hi Hj.
  - done.
  - destruct j as [|j]; [lia|]. simpl in Hj.
    destruct i as [|i]; simpl in Hi.
    + injection Hi as <-. rewrite Forall_forall in Hx.
      apply Hx. by eapply list_elem_of_lookup_2.
    + apply (IH i j); [lia|done..].
Qed.
End sorted_facts.

(** ** The registry holds usable tables only *)

Lemma all_usable_log s msg :
  all_usable s → all_usable (final_state (log_write msg s)).
Proof. intros Hs. exact Hs. Qed.

Lemma all_usable_dirs s dirs :
  all_usable s → all_usable (final_state (prependTablesDirs dirs s)).
Proof. intros Hs. exact Hs. Qed.

Lemma all_usable_run E o st : all_usable st → all_usable (run E o st).
Proof.
  intros Hst. destruct o; cbn [run].
  - by apply all_usable_addTable.
  - unfold getTable. destruct (PyDict.get _ _); exact Hst.
  - unfold getFallbackTable, getTable. destruct (PyDict.get _ _); exact Hst.
  - exact Hst.
  - rewrite initialize_eq.
    apply (addCustomTables_preserves E all_usable (λ _, True)).
    + apply all_usable_log.
    + apply all_usable_dirs.
    + intros s f t _ Ht Hs. by apply all_usable_register.
    + intros; exact I.
    + apply (addBuiltinTables_preserves E all_usable (λ _, True)).
      * intros s f t _ Ht Hs. by apply all_usable_register.
      * intros; exact I.
      * exact Hst.
  - intros t Ht. by apply elem_of_nil in Ht.
  - apply (loadCustomTablesConfig_preserves E all_usable (λ _, True)).
    + intros s f t _ Ht Hs. by apply all_usable_register.
    + intros; exact I.
    + exact Hst.
Qed.

(** C1. In every state reachable through the public operations, every
    registered table has [output] or [input] set; and in every state,
    [addTable] with [output] and [input] both false raises [ValueError]
    and leaves the state, hence the registry, as it was. *)
Theorem registered_tables_usable (E : Env) :
  (∀ st, reachable E st →
     ∀ t, t ∈ PyDict.values (_tables st) → output t || input t = true) ∧
  (∀ st f d c, addTable f d c false false st = Raise ValueError st).
Proof.
  split; [|done].
  intros st Hst. change (all_usable st).
  induction Hst as [|o st _ IH].
  - intros t Ht. by apply elem_of_nil in Ht.
  - by apply all_usable_run.
Qed.

Lemma registered_tables_usable_witness :
  (∀ t,
     t ∈ PyDict.values
           (_tables (run (sampleEnv "en") OpInitialize
                       (run (sampleEnv "en")
                          (OpAddTable "foo.ctb" "Foo" false false true)
                          initialState))) →
     output t || input t = true) ∧
  addTable "foo.ctb" "Foo" true false false initialState
    = Raise ValueError initialState.
Proof.
  split.
  - apply (proj1 (registered_tables_usable (sampleEnv "en"))).
    apply reachable_run, reachable_run, reachable_initial.
  - apply (proj2 (registered_tables_usable (sampleEnv "en"))).
Defined.

(** ** Registering again *)

(** C7. When the registry has an entry for [f], a successful
    [addTable f ...] makes the entry of [f] the table built from the
    arguments of the call alone, and leaves the entry of every other file
    name, the order of the keys and the directories as they were. *)
Theorem addTable_overwrites st st' f d c o i old :
  PyDict.get (_tables st) f = Some old →
  addTable f d c o i st = Return tt st' →
  getTable f st' = Return (mkBrailleTable f d c o i) st' ∧
  (∀ g, g ≠ f → PyDict.get (_tables st') g = PyDict.get (_tables st) g) ∧
  PyDict.keys (_tables st') = PyDict.keys (_tables st) ∧
  tablesDirs st' = tablesDirs st.
Proof.
  intros Hold [_ ->]%addTable_inv. repeat split.
  - unfold getTable. simpl. by rewrite PyDictFacts.get_set_eq.
  - intros g Hg. simpl. by apply PyDictFacts.get_set_ne.
  - simpl. apply PyDictFacts.keys_set_present.
    apply PyDictFacts.get_is_Some. eauto.
Qed.

Lemma addTable_overwrites_witness :
  let old := mkBrailleTable "foo.ctb" "Old" true true false in
  let other := mkBrailleTable "bar.ctb" "Bar" false true true in
  let st := {| tablesDirs := [TABLES_DIR];
               _tables := [("foo.ctb", old); ("bar.ctb", other)];
               logged := [] |} in
  let st' := {| tablesDirs := [TABLES_DIR];
                _tables := [("foo.ctb", mkBrailleTable "foo.ctb" "New" false false true);
                            ("bar.ctb", other)];
                logged := [] |} in
  getTable "foo.ctb" st'
    = Return (mkBrailleTable "foo.ctb" "New" false false true) st' ∧
  (∀ g, g ≠ "foo.ctb" →
     PyDict.get (_tables st') g = PyDict.get (_tables st) g) ∧
  PyDict.keys (_tables st') = PyDict.keys (_tables st) ∧
  tablesDirs st' = tablesDirs st.
Proof.
  intros old other st st'.
  apply (addTable_overwrites st st' "foo.ctb" "New" false false true old);
    reflexivity.
Defined.

(** ** Reset *)

(** C8. In every state, [terminate] returns and leaves an empty registry
    and the directory list [[TABLES_DIR]]; every [getTable] then raises
    [KeyError] and changes nothing, and a file name is found again once
    [addTable] has registered it. *)
Theorem terminate_resets st :
  ∃ st',
    terminate st = Return tt st' ∧
    _tables st' = [] ∧
    tablesDirs st' = [TABLES_DIR] ∧
    (∀ f, getTable f st' = Raise KeyError st') ∧
    (∀ f d c o i st'',
       addTable f d c o i st' = Return tt st'' →
       getTable f st'' = Return (mkBrailleTable f d c o i) st'').
Proof.
  eexists. split; [reflexivity|]. repeat split.
  intros f d c o i st'' [_ ->]%addTable_inv.
  unfold getTable. simpl. by rewrite String.eqb_refl.
Qed.

(** ** Listing *)

(** C6, as the code has it. In every state, [listTables] returns the
    registered tables, each as many times as it is registered (a
    permutation of the values of the registry); of two tables of the
    result, the earlier one has a display name lower than or equal to the
    later one's in the order of [str], which compares code points and is
    the same in every locale; and the tables of one display name come in
    the order of the registry, which is the order of their first
    registration. *)
Theorem listTables_sorted st :
  listTables st ≡ₚ PyDict.values (_tables st) ∧
  (∀ i j a b,
     i < j → listTables st !! i = Some a → listTables st !! j = Some b →
     str_le (displayName a) (displayName b)) ∧
  (∀ name,
     filter (λ t, displayName t = name) (listTables st) =
     filter (λ t, displayName t = name) (PyDict.values (_tables st))).
Proof.
  unfold listTables. split; [apply sorted_perm|]. split.
  - intros i j a b Hij Hi Hj.
    eapply (StronglySorted_lookup_le displayName);
      [apply sorted_StronglySorted|exact Hij|exact Hi|exact Hj].
  - intros name. apply sorted_stable.
Qed.

Lemma listTables_sorted_witness :
  let a := mkBrailleTable "b.ctb" "Beta" false true true in
  let b := mkBrailleTable "a.ctb" "Alpha" false true true in
  let c := mkBrailleTable "c.ctb" "Alpha" true true false in
  let st := {| tablesDirs := [TABLES_DIR];
               _tables := [("b.ctb", a); ("a.ctb", b); ("c.ctb", c)];
               logged := [] |} in
  listTables st = [b; c; a] ∧
  str_le (displayName b) (displayName a).
Proof.
  intros a b c st. split; [reflexivity|].
  apply (proj1 (proj2 (listTables_sorted st)) 0 2 b a); [lia|reflexivity..].
Defined.

(** C6, as stated, fails: the order of the listing is not the collation
    of the active locale. With the tables [alpha] and [Zulu] registered,
    [listTables] returns [Zulu] first, an upper case letter having a
    lower code point than a lower case one; [Zulu] is not before [alpha]
    alphabetically, and the listing is in the order of no relation that
    puts [alpha] strictly before [Zulu]. The module reads the locale
    nowhere in [listTables]. *)
Lemma listTables_collation_counterexample :
  let alpha := mkBrailleTable "al.ctb" "alpha" false true true in
  let zulu := mkBrailleTable "zu.ctb" "Zulu" false true true in
  let st := {| tablesDirs := [TABLES_DIR];
               _tables := [("al.ctb", alpha); ("zu.ctb", zulu)];
               logged := [] |} in
  listTables st = [zulu; alpha] ∧
  alphabetical_le (displayName alpha) (displayName zulu) ∧
  ¬ alphabetical_le (displayName zulu) (displayName alpha) ∧
  ¬ ordered_by alphabetical_le (listTables st) ∧
  ordered_by str_le (listTables st) ∧
  (∀ collation : string → string → Prop,
     ¬ collation "Zulu" "alpha" → ¬ ordered_by collation (listTables st)).
Proof.
  intros alpha zulu st.
  assert (listTables st = [zulu; alpha]) as Hl by reflexivity.
  assert (∀ collation : string → string → Prop,
            ¬ collation "Zulu" "alpha" →
            ¬ ordered_by collation (listTables st)) as Hno.
  { intros collation Hc Ho. apply Hc.
    apply (Ho 0 1 zulu alpha); [lia|reflexivity..]. }
  split; [exact Hl|].
  split; [reflexivity|].
  assert (¬ alphabetical_le (displayName zulu) (displayName alpha)) as Hza
    by (vm_compute; discriminate).
  split; [exact Hza|].
  split; [by apply Hno|].
  split; [|exact Hno].
  intros i j a b Hij Hi Hj.
  eapply (StronglySorted_lookup_le displayName);
    [apply sorted_StronglySorted|exact Hij|exact Hi|exact Hj].
Qed.

(** ** Renamed tables *)

Lemma has_key_register f g t st :
  f ∈ PyDict.keys (_tables st) → f ∈ PyDict.keys (_tables (register g t st)).
Proof. apply keeps_keys_register. Qed.

Lemma addBuiltinTables_keys E st b :
  b ∈ builtinTables →
  b_fileName b ∈ PyDict.keys (_tables (final_state (addBuiltinTables E st))).
Proof.
  assert (Forall (λ b, b_output b || b_input b = true) builtinTables) as Hall.
  { apply Forall_forall; intros x Hx%list_elem_of_In.
    apply (proj1 (forallb_forall (λ b, b_output b || b_input b)
                    builtinTables) eq_refl x Hx). }
  unfold addBuiltinTables. revert st Hall.
  generalize builtinTables as l.
  induction l as [|x l IH]; intros st Hall Hb; [by apply elem_of_nil in Hb|].
  apply Forall_cons in Hall as [Hx Hall].
  rewrite for_each_cons, addTable_usable by done.
  apply elem_of_cons in Hb as [->|Hb]; [|by apply IH].
  apply (for_each_preserves _
           (λ s, b_fileName x ∈ PyDict.keys (_tables s))).
  - intros y s Hy Hs.
    destruct (b_output y || b_input y) eqn:Hu.
    + rewrite addTable_usable by done. by apply has_key_register.
    + apply orb_false_iff in Hu as [-> ->]. exact Hs.
  - simpl. apply PyDictFacts.elem_of_keys_set. by left.
Qed.

Lemma addCustomTables_keys E st f :
  f ∈ PyDict.keys (_tables st) →
  f ∈ PyDict.keys (_tables (final_state (addCustomTables E st))).
Proof.
  intros Hf.
  apply (addCustomTables_preserves E
           (λ s, f ∈ PyDict.keys (_tables s)) (λ _, True)).
  - intros s msg Hs. exact Hs.
  - intros s dirs Hs. exact Hs.
  - intros s g t _ _ Hs. by apply has_key_register.
  - intros; exact I.
  - exact Hf.
Qed.

Lemma renamed_targets_builtin :
  Forall (λ kv, kv.2 ∈ b_fileName <$> builtinTables) RENAMED_TABLES.
Proof. apply (bool_decide_unpack _). vm_compute. exact I. Qed.

(** C9. [RENAMED_TABLES] maps [ar-fa.utb] to [fa-ir-g1.utb]; and every
    value of [RENAMED_TABLES] is the file name of a table that [getTable]
    finds, both once [initialize] has added the builtin tables and in the
    state that [initialize] leaves, from any state and in any
    installation. *)
Theorem renamed_tables_resolvable E st :
  PyDict.get RENAMED_TABLES "ar-fa.utb" = Some "fa-ir-g1.utb" ∧
  ∀ old new, (old, new) ∈ RENAMED_TABLES →
    (∃ t, getTable new (final_state (addBuiltinTables E st))
            = Return t (final_state (addBuiltinTables E st))) ∧
    (∃ t, getTable new (final_state (initialize E st))
            = Return t (final_state (initialize E st))).
Proof.
  split; [reflexivity|]. intros old new Hin.
  pose proof renamed_targets_builtin as Hall. rewrite Forall_forall in Hall.
  apply Hall in Hin. change (new ∈ b_fileName <$> builtinTables) in Hin.
  apply list_elem_of_fmap in Hin as (b & -> & Hb).
  pose proof (addBuiltinTables_keys E st b Hb) as Hk.
  split.
  - apply PyDictFacts.get_is_Some in Hk as [t Ht].
    exists t. unfold getTable. by rewrite Ht.
  - assert (b_fileName b ∈ PyDict.keys (_tables (final_state (initialize E st))))
      as Hk'.
    { rewrite initialize_eq. by apply addCustomTables_keys. }
    apply PyDictFacts.get_is_Some in Hk' as [t Ht].
    exists t. unfold getTable. by rewrite Ht.
Qed.

Lemma renamed_tables_resolvable_witness :
  ∃ t, getTable "en-ueb-g2.ctb"
         (final_state (initialize (sampleEnv "en") initialState))
       = Return t (final_state (initialize (sampleEnv "en") initialState)).
Proof.
  apply (proj2 (renamed_tables_resolvable (sampleEnv "en") initialState)
           "UEBC-g2.ctb" "en-ueb-g2.ctb").
  apply (bool_decide_unpack _). vm_compute. exact I.
Defined.

(** ** Display names *)

Lemma split_head_prefix (lang p : string) :
  language_prefix lang p → head (split "_" lang) = Some p.
Proof.
  revert lang. induction p as [|c p IH]; intros lang [Hp Hlang].
  - destruct Hlang as [->|[rest ->]]; [done|]. simpl. done.
  - assert (Ascii.eqb c "_" = false) as Hc.
    { apply Ascii.eqb_neq. intros ->. by apply (Hp 0). }
    assert (∃ lang', lang = String c lang' ∧ language_prefix lang' p)
      as (lang' & -> & Hlang').
    { destruct Hlang as [->|[rest ->]].
      - exists p. split; [done|]. split; [|by left].
        intros n. apply (Hp (S n)).
      - exists (String.append p (String "_" rest)). split; [done|].
        split; [|right; by exists rest].
        intros n. apply (Hp (S n)). }
    simpl. rewrite Hc. specialize (IH lang' Hlang').
    destruct (split "_" lang') as [|w ws]; [done|].
    simpl in IH. by injection IH as ->.
Qed.

Lemma truthy_missing (value : gmap string string) k :
  missing value k → truthy (value !! k) = false.
Proof. by intros [->| ->]. Qed.

Lemma truthy_nonempty (value : gmap string string) k s :
  value !! k = Some s → s ≠ "" → truthy (value !! k) = true.
Proof.
  intros -> Hs. simpl. by destruct (String.eqb_spec s "").
Qed.

Lemma truthy_false_missing (value : gmap string string) k :
  truthy (value !! k) = false → missing value k.
Proof.
  unfold missing. destruct (value !! k) as [s|]; [|by left]. simpl.
  destruct (String.eqb_spec s "") as [->|]; [by right | done].
Qed.

(** C3. The display name of a table configuration that has no
    ["displayName"] key: [tableCfg.get("displayName")] returns [None]
    without raising [KeyError], [None] is neither a string nor a
    dictionary, and the function raises [ValueError]; the file name is not
    returned, and [loadCustomTablesConfig] raises at this entry. *)
Theorem missing_displayName_raises E f c o i st :
  _getCustomTableDisplayName E f (CfgDict (mkTableCfg c o i None))
    = inl ValueError ∧
  loadCustomTablesConfig E [(f, CfgDict (mkTableCfg c o i None))] st
    = Raise ValueError st.
Proof.
  split; [reflexivity|].
  rewrite loadCustomTablesConfig_cons. reflexivity.
Qed.

(** C2, as the code has it. For a display name that is a dictionary, the
    result is the value of the active language if it is there and not
    empty; otherwise the value of the part of the language before the
    first underscore if it is there and not empty; otherwise the value of
    [en_US], then the value of [en], under the same condition; otherwise
    the file name. With [{"en": "X", "en_US": "Y", "de": "Z"}], the
    language [de_AT] gives [Z], [fr] gives [Y] and [en_US] gives [Y]. *)
Theorem displayName_fallback_chain E f c value p :
  cfg_displayName c = Some (DNDict value) →
  language_prefix (getLanguage E) p →
  let lang := getLanguage E in
  let r := _getCustomTableDisplayName E f (CfgDict c) in
  (∀ s, value !! lang = Some s → s ≠ "" → r = inr s) ∧
  (missing value lang →
   ∀ s, value !! p = Some s → s ≠ "" → r = inr s) ∧
  (missing value lang → missing value p →
   ∀ s, value !! "en_US" = Some s → s ≠ "" → r = inr s) ∧
  (missing value lang → missing value p → missing value "en_US" →
   ∀ s, value !! "en" = Some s → s ≠ "" → r = inr s) ∧
  (missing value lang → missing value p → missing value "en_US" →
   missing value "en" → r = inr f) ∧
  (∀ E' f',
     (getLanguage E' = "de_AT" →
      _getCustomTableDisplayName E' f' (sample_cfg (Some (DNDict sample_names)))
        = inr "Z") ∧
     (getLanguage E' = "fr" →
      _getCustomTableDisplayName E' f' (sample_cfg (Some (DNDict sample_names)))
        = inr "Y") ∧
     (getLanguage E' = "en_US" →
      _getCustomTableDisplayName E' f' (sample_cfg (Some (DNDict sample_names)))
        = inr "Y")).
Proof.
  intros Hc Hp lang r. subst lang r.
  unfold _getCustomTableDisplayName, cfg_get. rewrite Hc.
  rewrite (split_head_prefix _ _ Hp). cbn [from_option id]. cbv zeta.
  repeat split.
  - intros s Hs Hne. pose proof (truthy_nonempty _ _ _ Hs Hne) as Ht.
    repeat (rewrite ?Ht; cbn [negb]). by rewrite Hs.
  - intros H1%truthy_missing s Hs Hne.
    pose proof (truthy_nonempty _ _ _ Hs Hne) as Ht.
    repeat (rewrite ?H1, ?Ht; cbn [negb]). by rewrite Hs.
  - intros H1%truthy_missing H2%truthy_missing s Hs Hne.
    pose proof (truthy_nonempty _ _ _ Hs Hne) as Ht.
    repeat (rewrite ?H1, ?H2, ?Ht; cbn [negb]). by rewrite Hs.
  - intros H1%truthy_missing H2%truthy_missing H3%truthy_missing s Hs Hne.
    pose proof (truthy_nonempty _ _ _ Hs Hne) as Ht.
    repeat (rewrite ?H1, ?H2, ?H3, ?Ht; cbn [negb]). by rewrite Hs.
  - intros H1%truthy_missing H2%truthy_missing H3%truthy_missing
      H4%truthy_missing.
    repeat (rewrite ?H1, ?H2, ?H3, ?H4; cbn [negb]). done.
  - intros ->. vm_compute. reflexivity.
  - intros ->. vm_compute. reflexivity.
  - intros ->. vm_compute. reflexivity.
Qed.

Lemma displayName_fallback_chain_witness :
  _getCustomTableDisplayName (sampleEnv "de_AT") "foo.ctb"
    (sample_cfg (Some (DNDict sample_names))) = inr "Z".
Proof.
  assert (language_prefix (getLanguage (sampleEnv "de_AT")) "de") as Hp.
  { split; [intros [|[|n]]; simpl; discriminate|].
    right. exists "AT". reflexivity. }
  pose proof (displayName_fallback_chain (sampleEnv "de_AT") "foo.ctb"
                {| cfg_contracted := None; cfg_output := None;
                   cfg_input := None;
                   cfg_displayName := Some (DNDict sample_names) |}
                sample_names "de" eq_refl Hp) as H.
  cbv zeta in H. destruct H as (_ & H & _).
  apply H.
  - left. vm_compute. reflexivity.
  - vm_compute. reflexivity.
  - discriminate.
Defined.

(** C2, as stated, fails: with [{"de": "", "en": "X"}] and the language
    [de], the key of the active language is present, its value is the
    empty string, and the result is ["X"], the value of [en]. *)
Lemma displayName_membership_counterexample :
  empty_de_names !! getLanguage (sampleEnv "de") = Some "" ∧
  resolve_by_membership empty_de_names (getLanguage (sampleEnv "de")) "foo.ctb"
    = "" ∧
  _getCustomTableDisplayName (sampleEnv "de") "foo.ctb"
    (sample_cfg (Some (DNDict empty_de_names))) = inr "X" ∧
  _getCustomTableDisplayName (sampleEnv "de") "foo.ctb"
    (sample_cfg (Some (DNDict empty_de_names)))
  ≠ inr (resolve_by_membership empty_de_names
           (getLanguage (sampleEnv "de")) "foo.ctb").
Proof.
  assert (_getCustomTableDisplayName (sampleEnv "de") "foo.ctb"
            (sample_cfg (Some (DNDict empty_de_names))) = inr "X") as Hcode
    by (vm_compute; reflexivity).
  assert (resolve_by_membership empty_de_names
            (getLanguage (sampleEnv "de")) "foo.ctb" = "") as Hspec
    by (vm_compute; reflexivity).
  split; [vm_compute; reflexivity|].
  split; [exact Hspec|]. split; [exact Hcode|].
  rewrite Hcode, Hspec. discriminate.
Qed.

Lemma nonempty_names_lookup (value : gmap string string) k :
  (truthy (value !! k) = true ∧ nonempty_names value !! k = value !! k) ∨
  (truthy (value !! k) = false ∧ nonempty_names value !! k = None).
Proof.
  unfold nonempty_names.
  destruct (value !! k) as [s|] eqn:Hk; simpl.
  - destruct (String.eqb_spec s "") as [->|Hs]; simpl.
    + right. split; [done|]. apply map_lookup_filter_None. right.
      intros x Hx. rewrite Hk in Hx. injection Hx as <-. simpl. tauto.
    + left. split; [done|]. apply map_lookup_filter_Some. done.
  - right. split; [done|]. apply map_lookup_filter_None. by left.
Qed.

Lemma nonempty_names_Some (value : gmap string string) k s :
  nonempty_names value !! k = Some s ↔ value !! k = Some s ∧ s ≠ "".
Proof. unfold nonempty_names. by rewrite map_lookup_filter_Some. Qed.

Lemma nonempty_names_missing (value : gmap string string) k :
  missing value k → nonempty_names value !! k = None.
Proof.
  intros Hk. unfold nonempty_names. apply map_lookup_filter_None.
  destruct Hk as [Hk|Hk]; [by left|right].
  intros x Hx. rewrite Hk in Hx. injection Hx as <-. simpl. tauto.
Qed.

(** The display name for a dictionary is found by the membership of the
    keys in the dictionary of which the empty names are removed. *)
Lemma displayName_of_nonempty_names E f c value :
  cfg_displayName c = Some (DNDict value) →
  _getCustomTableDisplayName E f (CfgDict c) =
    inr (resolve_by_membership (nonempty_names value) (getLanguage E) f).
Proof.
  intros Hc. unfold _getCustomTableDisplayName, cfg_get, resolve_by_membership.
  rewrite Hc. cbv zeta.
  set (lang := getLanguage E). set (p := default "" (head (split "_" lang))).
  destruct (nonempty_names_lookup value lang) as [[H1 E1]|[H1 E1]]; rewrite E1.
  { repeat (rewrite ?H1; cbn [negb]).
    destruct (value !! lang); [done|discriminate H1]. }
  destruct (nonempty_names_lookup value p) as [[H2 E2]|[H2 E2]]; rewrite E2.
  { repeat (rewrite ?H1, ?H2; cbn [negb]).
    destruct (value !! p); [done|discriminate H2]. }
  destruct (nonempty_names_lookup value "en_US") as [[H3 E3]|[H3 E3]];
    rewrite E3.
  { repeat (rewrite ?H1, ?H2, ?H3; cbn [negb]).
    destruct (value !! "en_US"); [done|discriminate H3]. }
  destruct (nonempty_names_lookup value "en") as [[H4 E4]|[H4 E4]];
    rewrite E4.
  { repeat (rewrite ?H1, ?H2, ?H3, ?H4; cbn [negb]).
    destruct (value !! "en"); [done|discriminate H4]. }
  repeat (rewrite ?H1, ?H2, ?H3, ?H4; cbn [negb]). done.
Qed.

(** C10. In a dictionary of display names, a key whose value is the empty
    string counts as a missing key. The result is the one for the
    dictionary without the keys of empty value, in which such a key is
    not found and every other key keeps its value; it is the value of
    the first of the active language, its part before the first
    underscore, [en_US] and [en] that is a key of this dictionary, and
    the file name when none is. So a step whose key has an empty value
    is passed over like one whose key is missing: when the names of the
    steps before are missing or empty, the result is the name of the
    language part, then the one of [en_US], then the one of [en], if it
    is there and not empty, and the file name when all four are missing
    or empty. The result is the empty string only when the file name
    is. *)
Theorem empty_displayName_is_absent E f c value :
  cfg_displayName c = Some (DNDict value) →
  let lang := getLanguage E in
  let r := _getCustomTableDisplayName E f (CfgDict c) in
  r = _getCustomTableDisplayName E f
        (CfgDict (with_displayName c (Some (DNDict (nonempty_names value))))) ∧
  (∀ k, value !! k = Some "" → nonempty_names value !! k = None) ∧
  (∃ s, r = inr s ∧ (s ≠ "" ∨ s = f)) ∧
  (∀ k s, nonempty_names value !! k = Some s ↔ value !! k = Some s ∧ s ≠ "") ∧
  r = inr (resolve_by_membership (nonempty_names value) lang f) ∧
  (∀ p, language_prefix lang p →
     (missing value lang →
      ∀ s, value !! p = Some s → s ≠ "" → r = inr s) ∧
     (missing value lang → missing value p →
      ∀ s, value !! "en_US" = Some s → s ≠ "" → r = inr s) ∧
     (missing value lang → missing value p → missing value "en_US" →
      ∀ s, value !! "en" = Some s → s ≠ "" → r = inr s) ∧
     (missing value lang → missing value p → missing value "en_US" →
      missing value "en" → r = inr f)).
Proof.
  intros Hc lang r.
  pose proof (displayName_of_nonempty_names E f c value Hc) as Hr.
  fold lang r in Hr.
  split; [|split; [|split; [|split; [|split]]]].
  - subst r lang. unfold _getCustomTableDisplayName, cfg_get.
    rewrite Hc. cbn [with_displayName cfg_displayName]. cbv zeta.
    set (lang := getLanguage E). set (p := default "" (head (split "_" lang))).
    destruct (nonempty_names_lookup value lang) as [[H1 E1]|[H1 E1]],
      (nonempty_names_lookup value p) as [[H2 E2]|[H2 E2]],
      (nonempty_names_lookup value "en_US") as [[H3 E3]|[H3 E3]],
      (nonempty_names_lookup value "en") as [[H4 E4]|[H4 E4]];
      rewrite ?E1, ?E2, ?E3, ?E4;
      repeat (rewrite ?H1, ?H2, ?H3, ?H4; cbn [negb truthy]);
      reflexivity.
  - intros k Hk. apply nonempty_names_missing. by right.
  - rewrite Hr. eexists. split; [reflexivity|].
    unfold resolve_by_membership.
    repeat match goal with
    | |- context [nonempty_names value !! ?k] =>
        destruct (nonempty_names value !! k) as [s|] eqn:?;
        [left; by eapply nonempty_names_Some|]
    end.
    by right.
  - apply nonempty_names_Some.
  - exact Hr.
  - intros p Hp. rewrite Hr. unfold resolve_by_membership.
    rewrite (split_head_prefix _ _ Hp). cbn [from_option id].
    split; [|split; [|split]].
    + intros H1 s Hs Hne.
      rewrite (nonempty_names_missing value lang) by done.
      by rewrite (proj2 (nonempty_names_Some value p s)).
    + intros H1 H2 s Hs Hne.
      rewrite (nonempty_names_missing value lang) by done.
      rewrite (nonempty_names_missing value p) by done.
      by rewrite (proj2 (nonempty_names_Some value "en_US" s)).
    + intros H1 H2 H3 s Hs Hne.
      rewrite (nonempty_names_missing value lang) by done.
      rewrite (nonempty_names_missing value p) by done.
      rewrite (nonempty_names_missing value "en_US") by done.
      by rewrite (proj2 (nonempty_names_Some value "en" s)).
    + intros H1 H2 H3 H4.
      rewrite (nonempty_names_missing value lang) by done.
      rewrite (nonempty_names_missing value p) by done.
      rewrite (nonempty_names_missing value "en_US") by done.
      by rewrite (nonempty_names_missing value "en") by done.
Qed.

(** With [{"de": "", "en": "X"}] and the language [de], the empty German
    name is passed over and the result is the English name. *)
Lemma empty_displayName_is_absent_witness :
  _getCustomTableDisplayName (sampleEnv "de") "foo.ctb"
    (sample_cfg (Some (DNDict empty_de_names))) =
  _getCustomTableDisplayName (sampleEnv "de") "foo.ctb"
    (sample_cfg (Some (DNDict (nonempty_names empty_de_names)))) ∧
  nonempty_names empty_de_names !! "de" = None ∧
  _getCustomTableDisplayName (sampleEnv "de") "foo.ctb"
    (sample_cfg (Some (DNDict empty_de_names))) = inr "X".
Proof.
  pose proof (empty_displayName_is_absent (sampleEnv "de") "foo.ctb"
                {| cfg_contracted := None; cfg_output := None;
                   cfg_input := None;
                   cfg_displayName := Some (DNDict empty_de_names) |}
                empty_de_names eq_refl) as H.
  cbv zeta in H. destruct H as (H1 & H2 & _ & _ & _ & H6).
  split; [exact H1|]. split; [apply H2; vm_compute; reflexivity|].
  assert (language_prefix (getLanguage (sampleEnv "de")) "de") as Hp.
  { split; [intros [|[|n]]; simpl; discriminate|]. by left. }
  destruct (H6 "de" Hp) as (_ & _ & H & _).
  apply H.
  - right. vm_compute. reflexivity.
  - right. vm_compute. reflexivity.
  - left. vm_compute. reflexivity.
  - vm_compute. reflexivity.
  - discriminate.
Defined.

(** ** One bad manifest does not stop the load *)

Section loops.
Context {A : Type} (body : A → M unit).
Hypothesis body_returns : ∀ x s, returns (body x s) = true.

(** The loop reaches every element: the iterations before it return. *)
Lemma for_each_app_cons xs x ys st :
  for_each (xs ++ x :: ys) body st =
    for_each ys body
      (final_state (body x (final_state (for_each xs body st)))).
Proof.
  rewrite for_each_app by (intros; apply body_returns).
  rewrite for_each_cons.
  pose proof (body_returns x (final_state (for_each xs body st))) as Hx.
  by destruct (body x _).
Qed.

(** What one iteration establishes and the others preserve holds after
    the loop. *)
Lemma for_each_establishes (P : State → Prop) xs x st :
  x ∈ xs →
  (∀ s, P (final_state (body x s))) →
  (∀ y s, P s → P (final_state (body y s))) →
  P (final_state (for_each xs body st)).
Proof.
  intros (l1 & l2 & ->)%list_elem_of_split Hx Hpres.
  rewrite for_each_app_cons.
  apply for_each_preserves; [|apply Hx].
  intros y s _. apply Hpres.
Qed.
End loops.

Section load_facts.
Variable E : Env.

Lemma has_key_preserved_file f dir_ fileName st :
  f ∈ PyDict.keys (_tables st) →
  f ∈ PyDict.keys (_tables (final_state (applyManifest E dir_ fileName st))).
Proof.
  intros Hf.
  apply (applyManifest_preserves E
           (λ s, f ∈ PyDict.keys (_tables s)) (λ _, True)).
  - intros s msg Hs. exact Hs.
  - intros s g t _ _ Hs. by apply has_key_register.
  - intros; exact I.
  - exact Hf.
Qed.

Lemma has_key_preserved_dir f dir_ st :
  f ∈ PyDict.keys (_tables st) →
  f ∈ PyDict.keys (_tables (final_state (loadCustomDir E dir_ st))).
Proof.
  intros Hf.
  apply (loadCustomDir_preserves E
           (λ s, f ∈ PyDict.keys (_tables s)) (λ _, True)).
  - intros s msg Hs. exact Hs.
  - intros s g t _ _ Hs. by apply has_key_register.
  - intros; exact I.
  - exact Hf.
Qed.

(** A manifest that parses and whose items all register a table is
    applied in full. *)
Lemma applyManifest_applies dir_ fileName data st :
  manifest_of E dir_ fileName data → applies E data →
  applyManifest E dir_ fileName st = loadCustomTablesConfig E data st ∧
  returns (loadCustomTablesConfig E data st) = true.
Proof.
  intros (Hfile & Hini & Hm) Ha.
  pose proof (loadCustomTablesConfig_returns E data st Ha) as Hret.
  split; [|exact Hret].
  unfold applyManifest. rewrite Hfile, Hini. cbn [andb].
  unfold try_except, mbind, M_bind, lift. rewrite Hm.
  by destruct (loadCustomTablesConfig E data st).
Qed.

Lemma loadCustomTablesConfig_keys data f st :
  applies E data → f ∈ PyDict.keys data →
  f ∈ PyDict.keys (_tables (final_state (loadCustomTablesConfig E data st))).
Proof.
  revert st. induction data as [|[g cfg] data IH]; intros st Ha Hf.
  - by apply elem_of_nil in Hf.
  - rewrite loadCustomTablesConfig_cons.
    destruct (Ha g cfg) as [t Ht]; [by left|]. rewrite Ht.
    assert (applies E data) as Ha' by (intros ???; apply Ha; by right).
    unfold PyDict.keys in Hf. rewrite fmap_cons in Hf.
    apply elem_of_cons in Hf as [->|Hf]; [|by apply IH].
    apply (loadCustomTablesConfig_preserves E
             (λ s, g ∈ PyDict.keys (_tables s)) (λ _, True)).
    + intros s h u _ _ Hs. by apply has_key_register.
    + intros; exact I.
    + simpl. apply PyDictFacts.elem_of_keys_set. by left.
Qed.
End load_facts.

(** C5. The exception of a manifest (of its opening, of its parsing or
    of the registration of its tables) is caught in the iteration of this
    manifest, which always returns, and the loop goes on with the files
    that follow. So, [os.listdir] raising nothing but the
    [FileNotFoundError] that [initialize] handles, [initialize] returns,
    and every table of a manifest that parses and whose items all
    register a table has an entry in the registry afterwards, whatever
    the other files do. *)
Theorem load_continues_after_errors E st :
  (∀ dir_ fileName s, returns (applyManifest E dir_ fileName s) = true) ∧
  (∀ dir_ before bad after s,
     for_each (before ++ bad :: after) (applyManifest E dir_) s =
       for_each after (applyManifest E dir_)
         (final_state
            (applyManifest E dir_ bad
               (final_state (for_each before (applyManifest E dir_) s))))) ∧
  (listdir_finds_or_misses E →
   ∃ st',
     initialize E st = Return tt st' ∧
     ∀ dir_ files fileName data f,
       dir_ ∈ _getCustomTablesDirs E →
       listdir E dir_ = inr files →
       fileName ∈ files →
       manifest_of E dir_ fileName data →
       applies E data →
       f ∈ PyDict.keys data →
       ∃ t, getTable f st' = Return t st').
Proof.
  split; [intros; apply applyManifest_returns|].
  split; [intros; apply for_each_app_cons; intros; apply applyManifest_returns|].
  intros Hl. exists (final_state (initialize E st)).
  split; [by apply returns_unit, initialize_returns|].
  intros dir_ files fileName data f Hdir Hlist Hfile Hm Ha Hf.
  assert (f ∈ PyDict.keys (_tables (final_state (initialize E st)))) as Hk.
  { rewrite initialize_eq.
    generalize (final_state (addBuiltinTables E st)). intros s0.
    unfold addCustomTables.
    erewrite bind_Return; [|reflexivity].
    apply (for_each_establishes (loadCustomDir E)
             (λ d s, loadCustomDir_returns E d s (Hl d))
             (λ s, f ∈ PyDict.keys (_tables s)) _ dir_).
    - by apply elem_of_reverse.
    - intros s. unfold loadCustomDir. rewrite Hlist.
      apply (for_each_establishes (applyManifest E dir_)
               (applyManifest_returns E dir_)
               (λ s, f ∈ PyDict.keys (_tables s)) _ fileName); [done| |].
      + intros s'.
        destruct (applyManifest_applies E dir_ fileName data s' Hm Ha)
          as [-> _].
        by apply loadCustomTablesConfig_keys.
      + intros y s' Hs'. by apply has_key_preserved_file.
    - intros y s Hs. by apply has_key_preserved_dir. }
  apply PyDictFacts.get_is_Some in Hk as [t Ht].
  exists t. unfold getTable. by rewrite Ht.
Qed.

Lemma sampleEnv_listdir lang : listdir_finds_or_misses (sampleEnv lang).
Proof.
  intros d e. unfold sampleEnv, listdir, sample_listdir.
  repeat match goal with |- context [String.eqb ?a ?b] =>
    destruct (String.eqb a b) end; congruence.
Qed.

Lemma load_continues_after_errors_witness :
  CustomTablesManifest (sampleEnv "en")
    (path_join (sampleEnv "en") "C:\addons\a\brailleTables" "broken.ini")
    = inl (ManifestError "parse error") ∧
  ∃ st',
    initialize (sampleEnv "en") initialState = Return tt st' ∧
    ∃ t, getTable "foo.ctb" st' = Return t st'.
Proof.
  split; [reflexivity|].
  destruct (proj2 (proj2 (load_continues_after_errors (sampleEnv "en")
                            initialState)) (sampleEnv_listdir "en"))
    as (st' & Hinit & Hkeys).
  exists st'. split; [exact Hinit|].
  apply (Hkeys "C:\addons\a\brailleTables" ["broken.ini"; "a.ini"] "a.ini"
           [("foo.ctb", sample_cfg (Some (DNStr "Foo of add-on a")))]
           "foo.ctb").
  - apply (bool_decide_unpack _). vm_compute. exact I.
  - reflexivity.
  - apply (bool_decide_unpack _). vm_compute. exact I.
  - repeat split.
  - intros f cfg [= -> ->]%list_elem_of_singleton.
    eexists. vm_compute. reflexivity.
  - apply (bool_decide_unpack _). vm_compute. exact I.
Defined.

(** ** Precedence of the custom directories *)

Section precedence.
Variable E : Env.

Lemma get_register_ne f g t s v :
  g ≠ f → PyDict.get (_tables s) f = v →
  PyDict.get (_tables (register g t s)) f = v.
Proof. intros Hne <-. simpl. by apply PyDictFacts.get_set_ne. Qed.

(** A manifest registers the table of each of its items. *)
Lemma loadCustomTablesConfig_get data f cfg t st :
  PyDict.wf data → applies E data →
  (f, cfg) ∈ data → customTable E f cfg = inr t →
  PyDict.get (_tables (final_state (loadCustomTablesConfig E data st))) f
    = Some t.
Proof.
  revert st. induction data as [|[g c] data IH]; intros st Hwf Ha Hin Ht.
  - by apply elem_of_nil in Hin.
  - unfold PyDict.wf, PyDict.keys in Hwf. rewrite fmap_cons in Hwf.
    apply NoDup_cons in Hwf as [Hg Hwf].
    assert (applies E data) as Ha' by (intros ???; apply Ha; by right).
    rewrite loadCustomTablesConfig_cons.
    destruct (Ha g c) as [t0 Ht0]; [by left|]. rewrite Ht0.
    apply elem_of_cons in Hin as [[= -> ->]|Hin]; [|by apply (IH _ Hwf Ha')].
    assert (t0 = t) as -> by congruence.
    apply (loadCustomTablesConfig_preserves E
             (λ s, PyDict.get (_tables s) g = Some t) (λ h, h ≠ g)).
    + intros s h u Hh _ Hs. by apply get_register_ne.
    + intros h Hh ->. done.
    + simpl. apply PyDictFacts.get_set_eq.
Qed.

(** A file that does not define [f] leaves the entry of [f] as it is. *)
Lemma applyManifest_frame dir_ fileName f v st :
  ¬ file_defines E dir_ fileName f →
  PyDict.get (_tables st) f = v →
  PyDict.get (_tables (final_state (applyManifest E dir_ fileName st))) f = v.
Proof.
  intros Hnot Hv.
  apply (applyManifest_preserves E
           (λ s, PyDict.get (_tables s) f = v) (λ h, h ≠ f)).
  - intros s msg Hs. exact Hs.
  - intros s h u Hh _ Hs. by apply get_register_ne.
  - intros h Hh ->. done.
  - exact Hv.
Qed.

(** A directory that does not define [f] leaves the entry of [f] as it
    is. *)
Lemma loadCustomDir_frame dir_ f v st :
  ¬ dir_defines E dir_ f →
  PyDict.get (_tables st) f = v →
  PyDict.get (_tables (final_state (loadCustomDir E dir_ st))) f = v.
Proof.
  intros Hnot Hv.
  apply (loadCustomDir_preserves E
           (λ s, PyDict.get (_tables s) f = v) (λ h, h ≠ f)).
  - intros s msg Hs. exact Hs.
  - intros s h u Hh _ Hs. by apply get_register_ne.
  - intros h Hh ->. done.
  - exact Hv.
Qed.

(** The last manifest of a directory that defines [f] decides the entry
    of [f] after the directory. *)
Lemma loadCustomDir_get dir_ before m after data f cfg t st :
  listdir E dir_ = inr (before ++ m :: after) →
  manifest_of E dir_ m data → PyDict.wf data → applies E data →
  (f, cfg) ∈ data → customTable E f cfg = inr t →
  (∀ m', m' ∈ after → ¬ file_defines E dir_ m' f) →
  PyDict.get (_tables (final_state (loadCustomDir E dir_ st))) f = Some t.
Proof.
  intros Hlist Hm Hwf Ha Hin Ht Hafter.
  unfold loadCustomDir. rewrite Hlist.
  rewrite for_each_app_cons by apply applyManifest_returns.
  apply (for_each_preserves _ (λ s, PyDict.get (_tables s) f = Some t)).
  - intros m' s Hm' Hs. apply applyManifest_frame; [by apply Hafter|done].
  - match goal with |- context [applyManifest E dir_ m ?s] =>
      destruct (applyManifest_applies E dir_ m data s Hm Ha) as [-> _]
    end.
    by apply (loadCustomTablesConfig_get data f cfg).
Qed.

(** The loop of a manifest reaches an item when the items before it
    register their tables; the item then registers its own, which the
    items after it leave alone, whether they register or raise. *)
Lemma loadCustomTablesConfig_get_upto l1 f cfg l2 t st :
  PyDict.wf (l1 ++ (f, cfg) :: l2) → applies E l1 →
  customTable E f cfg = inr t →
  PyDict.get
    (_tables (final_state
                (loadCustomTablesConfig E (l1 ++ (f, cfg) :: l2) st))) f
    = Some t.
Proof.
  revert st. induction l1 as [|[g c] l1 IH]; intros st Hwf Ha Ht.
  - cbn [app]. rewrite loadCustomTablesConfig_cons, Ht.
    unfold PyDict.wf, PyDict.keys in Hwf. cbn [app] in Hwf.
    rewrite fmap_cons in Hwf. apply NoDup_cons in Hwf as [Hf _].
    apply (loadCustomTablesConfig_preserves E
             (λ s, PyDict.get (_tables s) f = Some t) (λ h, h ≠ f)).
    + intros s h u Hh _ Hs. by apply get_register_ne.
    + intros h Hh ->. done.
    + simpl. apply PyDictFacts.get_set_eq.
  - cbn [app]. rewrite loadCustomTablesConfig_cons.
    destruct (Ha g c) as [t0 Ht0]; [by left|]. rewrite Ht0.
    apply IH; [|intros ???; apply Ha; by right|done].
    unfold PyDict.wf, PyDict.keys in Hwf |- *. cbn [app] in Hwf.
    rewrite fmap_cons in Hwf. by apply NoDup_cons in Hwf as [_ Hwf].
Qed.

(** The registry after a manifest that parses is the one that the loop
    over its items leaves, whether the loop returns or raises. *)
Lemma applyManifest_tables dir_ m data st :
  manifest_of E dir_ m data →
  _tables (final_state (applyManifest E dir_ m st))
    = _tables (final_state (loadCustomTablesConfig E data st)).
Proof.
  intros (Hfile & Hini & Hm).
  unfold applyManifest. rewrite Hfile, Hini. cbn [andb].
  unfold try_except, mbind, M_bind, lift. rewrite Hm.
  by destruct (loadCustomTablesConfig E data st).
Qed.

Lemma loadCustomDir_get_upto dir_ before m after l1 f cfg l2 t st :
  listdir E dir_ = inr (before ++ m :: after) →
  manifest_of E dir_ m (l1 ++ (f, cfg) :: l2) →
  PyDict.wf (l1 ++ (f, cfg) :: l2) → applies E l1 →
  customTable E f cfg = inr t →
  (∀ m', m' ∈ after → ¬ file_defines E dir_ m' f) →
  PyDict.get (_tables (final_state (loadCustomDir E dir_ st))) f = Some t.
Proof.
  intros Hlist Hm Hwf Ha Ht Hafter.
  unfold loadCustomDir. rewrite Hlist.
  rewrite for_each_app_cons by apply applyManifest_returns.
  apply (for_each_preserves _ (λ s, PyDict.get (_tables s) f = Some t)).
  - intros m' s Hm' Hs. apply applyManifest_frame; [by apply Hafter|done].
  - rewrite (applyManifest_tables _ _ _ _ Hm).
    by apply loadCustomTablesConfig_get_upto.
Qed.
End precedence.

(** C4, as the code has it. Let the custom directories be listed with
    [D1] before [D2], both defining the table [f], and no directory
    before [D1] defining it. Let the last manifest of [D1] that defines
    [f] parse, let the items that it has before [f] register their
    tables, and let the item of [f], of configuration [cfg], register
    its own; let [os.listdir] raise nothing but [FileNotFoundError].
    Then [initialize] returns and the entry of [f] is the table of
    [cfg], the one of [D1], whatever [D2] and the directories listed
    after [D1] define and whatever the items after [f] do: the
    directories are processed in the reverse order of the list and a
    later registration overwrites an earlier one. *)
Theorem earlier_directory_wins E st f pre D1 mid D2 post
    before m after items_before cfg items_after name :
  listdir_finds_or_misses E →
  _getCustomTablesDirs E = pre ++ D1 :: mid ++ D2 :: post →
  (∀ d, d ∈ pre → ¬ dir_defines E d f) →
  dir_defines E D2 f →
  listdir E D1 = inr (before ++ m :: after) →
  (∀ m', m' ∈ after → ¬ file_defines E D1 m' f) →
  manifest_of E D1 m (items_before ++ (f, CfgDict cfg) :: items_after) →
  PyDict.wf (items_before ++ (f, CfgDict cfg) :: items_after) →
  applies E items_before →
  _getCustomTableDisplayName E f (CfgDict cfg) = inr name →
  default true (cfg_output cfg) || default true (cfg_input cfg) = true →
  ∃ st',
    initialize E st = Return tt st' ∧
    getTable f st' =
      Return {| fileName := f;
                displayName := name;
                contracted := default false (cfg_contracted cfg);
                output := default true (cfg_output cfg);
                input := default true (cfg_input cfg) |} st'.
Proof.
  intros Hl Hdirs Hpre _ Hlist Hafter Hm Hwf Ha Hname Hu.
  set (t := {| fileName := f; displayName := name;
               contracted := default false (cfg_contracted cfg);
               output := default true (cfg_output cfg);
               input := default true (cfg_input cfg) |}).
  assert (customTable E f (CfgDict cfg) = inr t) as Ht.
  { unfold customTable. rewrite Hname. fold t.
    unfold usable. cbn [t output input]. by rewrite Hu. }
  exists (final_state (initialize E st)).
  split; [by apply returns_unit, initialize_returns|].
  assert (PyDict.get (_tables (final_state (initialize E st))) f = Some t)
    as Hget; [|unfold getTable; by rewrite Hget].
  rewrite initialize_eq.
  generalize (final_state (addBuiltinTables E st)). intros s0.
  unfold addCustomTables.
  erewrite bind_Return; [|reflexivity].
  rewrite Hdirs, reverse_app, reverse_cons, <- app_assoc.
  change ([D1] ++ reverse pre) with (D1 :: reverse pre).
  rewrite for_each_app_cons
    by (intros d s; apply loadCustomDir_returns, Hl).
  apply (for_each_preserves _ (λ s, PyDict.get (_tables s) f = Some t)).
  - intros d s Hd Hs. rewrite elem_of_reverse in Hd.
    apply loadCustomDir_frame; [by apply Hpre|done].
  - by apply (loadCustomDir_get_upto E D1 before m after
                items_before f (CfgDict cfg) items_after).
Qed.

Lemma scratchpadEnv_listdir mine :
  listdir_finds_or_misses (scratchpadEnv mine).
Proof.
  intros d e. unfold scratchpadEnv, listdir.
  repeat match goal with |- context [String.eqb ?a ?b] =>
    destruct (String.eqb a b) end; congruence.
Qed.

(** The scratchpad before add-on [a]: the manifest of the scratchpad
    registers [baz.ctb], then [foo.ctb], and raises at [bar.ctb], whose
    display name is a list; the entry of [foo.ctb] is the one of the
    scratchpad. *)
Lemma earlier_directory_wins_witness :
  ∃ st',
    initialize listNameLastEnv initialState = Return tt st' ∧
    getTable "foo.ctb" st' =
      Return (mkBrailleTable "foo.ctb" "Foo of the scratchpad" false true true)
        st'.
Proof.
  apply (earlier_directory_wins listNameLastEnv initialState "foo.ctb"
           [] "C:\scratch\brailleTables"
           [] "C:\addons\a\brailleTables"
           []
           [] "mine.ini" []
           [("baz.ctb", sample_cfg (Some (DNStr "Baz")))]
           {| cfg_contracted := None; cfg_output := None; cfg_input := None;
              cfg_displayName := Some (DNStr "Foo of the scratchpad") |}
           [("bar.ctb", sample_cfg (Some DNOther))]
           "Foo of the scratchpad").
  - apply scratchpadEnv_listdir.
  - vm_compute. reflexivity.
  - intros d Hd. by apply elem_of_nil in Hd.
  - exists ["a.ini"], "a.ini".
    split; [reflexivity|].
    split; [apply list_elem_of_singleton; reflexivity|].
    exists [("foo.ctb", sample_cfg (Some (DNStr "Foo of add-on a")))].
    split; [repeat split|].
    apply (bool_decide_unpack _). vm_compute. exact I.
  - reflexivity.
  - intros m' Hm'. by apply elem_of_nil in Hm'.
  - repeat split.
  - apply (bool_decide_unpack _). vm_compute. exact I.
  - intros f cfg [= -> ->]%list_elem_of_singleton.
    eexists. vm_compute. reflexivity.
  - reflexivity.
  - reflexivity.
Defined.

(** C4, as stated, fails. The scratchpad is listed before add-on [a] and
    both define [foo.ctb]; the manifest of the scratchpad parses, and it
    has [foo.ctb] after a table whose display name is a list. This table
    raises [ValueError], which ends the loop over the manifest before
    [foo.ctb]; the exception is logged, [initialize] returns, and the
    entry of [foo.ctb] is the table of add-on [a]. *)
Lemma earlier_directory_counterexample :
  let D1 := "C:\scratch\brailleTables" in
  let D2 := "C:\addons\a\brailleTables" in
  let cfg1 := sample_cfg (Some (DNStr "Foo of the scratchpad")) in
  let t1 := mkBrailleTable "foo.ctb" "Foo of the scratchpad" false true true in
  let t2 := mkBrailleTable "foo.ctb" "Foo of add-on a" false true true in
  _getCustomTablesDirs listNameEnv = [D1; D2] ∧
  dir_defines listNameEnv D1 "foo.ctb" ∧
  dir_defines listNameEnv D2 "foo.ctb" ∧
  manifest_of listNameEnv D1 "mine.ini"
    [("bar.ctb", sample_cfg (Some DNOther)); ("foo.ctb", cfg1)] ∧
  customTable listNameEnv "foo.ctb" cfg1 = inr t1 ∧
  ∃ st',
    initialize listNameEnv initialState = Return tt st' ∧
    getTable "foo.ctb" st' = Return t2 st' ∧
    getTable "foo.ctb" st' ≠ Return t1 st' ∧
    logged st' =
      ["Error while applying custom braille tables config: C:\scratch\brailleTables\mine.ini"].
Proof.
  intros D1 D2 cfg1 t1 t2.
  split; [vm_compute; reflexivity|].
  split.
  { exists ["mine.ini"], "mine.ini". split; [reflexivity|].
    split; [apply list_elem_of_singleton; reflexivity|].
    exists [("bar.ctb", sample_cfg (Some DNOther)); ("foo.ctb", cfg1)].
    split; [repeat split|].
    apply (bool_decide_unpack _). vm_compute. exact I. }
  split.
  { exists ["a.ini"], "a.ini". split; [reflexivity|].
    split; [apply list_elem_of_singleton; reflexivity|].
    exists [("foo.ctb", sample_cfg (Some (DNStr "Foo of add-on a")))].
    split; [repeat split|].
    apply (bool_decide_unpack _). vm_compute. exact I. }
  split; [repeat split|].
  split; [reflexivity|].
  eexists. split; [vm_compute; reflexivity|].
  split; [vm_compute; reflexivity|].
  split; [|reflexivity].
  vm_compute. discriminate.
Qed.

(** ** The sample installation, run *)

Example split_language : split "_" "pt_BR" = ["pt"; "BR"].
Proof. reflexivity. Qed.

Example split_no_underscore : split "_" "de" = ["de"].
Proof. reflexivity. Qed.

Example endswith_ini :
  endswith "mine.ini" ".ini" = true ∧ endswith "notes.txt" ".ini" = false ∧
  endswith "ini" ".ini" = false.
Proof. repeat split. Qed.

(** The custom directories, the scratchpad first. *)
Example sample_customDirs :
  _getCustomTablesDirs (sampleEnv "en") =
    ["C:\scratch\brailleTables"; "C:\addons\a\brailleTables";
     "C:\addons\b\brailleTables"].
Proof. vm_compute. reflexivity. Qed.

(** The custom tables of the sample installation, loaded into an empty
    registry: add-on [b] first, then add-on [a], whose broken manifest is
    logged, then the scratchpad, which overwrites [foo.ctb]. *)
Example sample_addCustomTables :
  addCustomTables (sampleEnv "fr") initialState =
    Return tt
      {| tablesDirs :=
           ["C:\scratch\brailleTables"; "C:\addons\a\brailleTables";
            "C:\addons\b\brailleTables"; TABLES_DIR];
         _tables :=
           [("bar.ctb", mkBrailleTable "bar.ctb" "Y" false true true);
            ("foo.ctb",
             mkBrailleTable "foo.ctb" "Foo of the scratchpad" false true true)];
         logged :=
           ["Error while applying custom braille tables config: C:\addons\a\brailleTables\broken.ini"] |}.
Proof. vm_compute. reflexivity. Qed.

(** The fallback table is a builtin table. *)
Lemma getFallbackTable_after_initialize E st :
  ∃ t, getFallbackTable (final_state (initialize E st))
       = Return t (final_state (initialize E st)).
Proof.
  assert (FALLBACK_TABLE_NAME
            ∈ PyDict.keys (_tables (final_state (initialize E st)))) as Hk.
  { rewrite initialize_eq. apply addCustomTables_keys.
    apply (addBuiltinTables_keys E st
             (builtin "en-ueb-g1.ctb" "Unified English Braille Code grade 1"
                false true true)).
    by apply (list_elem_of_lookup_2 _ 26). }
  apply PyDictFacts.get_is_Some in Hk as [t Ht].
  exists t. unfold getFallbackTable, getTable. by rewrite Ht.
Qed.

(** * Further properties *)

(** ** What registering and loading may change *)

Lemma evolves_register f t s :
  fileName t = f → usable t = true → evolves s (register f t s).
Proof. intros Hf Hu. apply rtc_once. by constructor. Qed.

Lemma evolves_addTable f d c o i st :
  evolves st (final_state (addTable f d c o i st)).
Proof.
  destruct (o || i) eqn:Hu.
  - rewrite addTable_usable by done. by apply evolves_register.
  - apply orb_false_iff in Hu as [-> ->]. apply rtc_refl.
Qed.

Lemma for_each_evolves {A} (body : A → M unit) xs st :
  (∀ x s, x ∈ xs → evolves s (final_state (body x s))) →
  evolves st (final_state (for_each xs body st)).
Proof.
  intros Hb. apply (for_each_preserves body (evolves st)); [|apply rtc_refl].
  intros x s Hx Hs. eapply rtc_trans; [exact Hs|by apply Hb].
Qed.

Section evolves_facts.
Variable E : Env.

Lemma evolves_loadCustomTablesConfig data st :
  evolves st (final_state (loadCustomTablesConfig E data st)).
Proof.
  apply for_each_evolves. intros [f cfg] s _.
  rewrite loadCustomTable_spec.
  destruct (customTable E f cfg) as [e|t] eqn:Ht; [apply rtc_refl|].
  apply customTable_inr in Ht as [Hf Hu]. by apply evolves_register.
Qed.

Lemma evolves_applyManifest dir_ fileName st :
  evolves st (final_state (applyManifest E dir_ fileName st)).
Proof.
  unfold applyManifest.
  destruct (isfile E _ && endswith fileName ".ini"); [|apply rtc_refl].
  unfold try_except, mbind, M_bind, lift.
  destruct (CustomTablesManifest E _) as [e|data].
  - apply rtc_once. constructor.
  - pose proof (evolves_loadCustomTablesConfig data st) as Hd.
    destruct (loadCustomTablesConfig E data st) as [[] s|e s]; [exact Hd|].
    eapply rtc_r; [exact Hd|constructor].
Qed.

Lemma evolves_loadCustomDir dir_ st :
  evolves st (final_state (loadCustomDir E dir_ st)).
Proof.
  unfold loadCustomDir. destruct (listdir E dir_) as [e|files].
  - destruct e; first [apply rtc_once; constructor | apply rtc_refl].
  - apply for_each_evolves. intros m s _. apply evolves_applyManifest.
Qed.

Lemma evolves_addCustomTables st :
  evolves st (final_state (addCustomTables E st)).
Proof.
  unfold addCustomTables. erewrite bind_Return; [|reflexivity].
  eapply rtc_l; [apply change_dirs|].
  apply for_each_evolves. intros d s _. apply evolves_loadCustomDir.
Qed.

Lemma evolves_addBuiltinTables st :
  evolves st (final_state (addBuiltinTables E st)).
Proof. apply for_each_evolves. intros b s _. apply evolves_addTable. Qed.

Lemma evolves_initialize st : evolves st (final_state (initialize E st)).
Proof.
  rewrite initialize_eq.
  eapply rtc_trans; [apply evolves_addBuiltinTables|].
  apply evolves_addCustomTables.
Qed.

(** Every public operation but [terminate] changes the state by
    registrations, log records and prepended directories only. *)
Lemma evolves_run o st : o ≠ OpTerminate → evolves st (run E o st).
Proof.
  intros Ho. destruct o; cbn [run].
  - apply evolves_addTable.
  - unfold getTable. destruct (PyDict.get _ _); apply rtc_refl.
  - unfold getFallbackTable, getTable. destruct (PyDict.get _ _); apply rtc_refl.
  - apply rtc_refl.
  - apply evolves_initialize.
  - by destruct Ho.
  - apply evolves_loadCustomTablesConfig.
Qed.
End evolves_facts.

Lemma elem_of_set {V} (d : PyDict.dict V) k v x :
  x ∈ PyDict.set d k v → x = (k, v) ∨ x ∈ d.
Proof.
  induction d as [|[k' v'] d IH]; simpl.
  - intros ->%list_elem_of_singleton. by left.
  - destruct (String.eqb_spec k' k) as [->|Hk]; rewrite !elem_of_cons;
      intuition.
Qed.

Lemma keyed_change s s' : change s s' → keyed s → keyed s'.
Proof.
  intros Hc [Hwf Hk]. destruct Hc as [f t s Hf Hu| |]; [|done..].
  split; simpl.
  - by apply PyDictFacts.wf_set.
  - intros g u [[= -> ->]|Hin]%elem_of_set; [done|by apply Hk].
Qed.

Lemma keyed_evolves s s' : evolves s s' → keyed s → keyed s'.
Proof. induction 1 as [|s1 s2 s3 Hc _ IH]; [done|]. intros Hs. eauto using keyed_change. Qed.

Lemma keyed_reachable E st : reachable E st → keyed st.
Proof.
  induction 1 as [|o st _ IH].
  - split; [apply NoDup_nil_2|]. intros f t Hin. by apply elem_of_nil in Hin.
  - assert (o = OpTerminate ∨ o ≠ OpTerminate) as [->|Ho]
      by (destruct o; first [by left | by right]).
    + split; [apply NoDup_nil_2|]. intros f t Hin. by apply elem_of_nil in Hin.
    + eapply keyed_evolves; [by apply evolves_run|done].
Qed.

(** X1. In every state reachable through the public operations, no file
    name is twice a key of the registry, and the table that [getTable]
    returns for a file name has this file name. *)
Theorem registry_keyed_by_fileName E st :
  reachable E st →
  NoDup (PyDict.keys (_tables st)) ∧
  ∀ f t, getTable f st = Return t st → fileName t = f.
Proof.
  intros [Hwf Hk]%keyed_reachable. split; [exact Hwf|].
  intros f t. unfold getTable.
  destruct (PyDict.get (_tables st) f) as [u|] eqn:Hg; [|done].
  intros [= ->]. by apply Hk, PyDictFacts.get_Some_elem_of.
Qed.

Lemma registry_keyed_by_fileName_witness :
  let st := run (sampleEnv "en") OpInitialize initialState in
  NoDup (PyDict.keys (_tables st)) ∧
  ∀ f t, getTable f st = Return t st → fileName t = f.
Proof.
  apply (registry_keyed_by_fileName (sampleEnv "en")).
  apply reachable_run, reachable_initial.
Defined.

Lemma keyed_fileNames st :
  keyed st → fileName <$> PyDict.values (_tables st) = PyDict.keys (_tables st).
Proof.
  intros [_ Hk]. unfold PyDict.values, PyDict.keys.
  rewrite <- list_fmap_compose. apply list_fmap_ext.
  intros i [f t] Hi. simpl. apply Hk. by eapply list_elem_of_lookup_2.
Qed.

(** X2. In every reachable state, [listTables] and [getTable] agree: a
    table is listed exactly when [getTable] returns it for its file name;
    no two listed tables have the same file name, and there are as many
    listed tables as registered file names. *)
Theorem listTables_agrees_with_getTable E st :
  reachable E st →
  (∀ t, t ∈ listTables st ↔ getTable (fileName t) st = Return t st) ∧
  NoDup (fileName <$> listTables st) ∧
  length (listTables st) = length (PyDict.keys (_tables st)).
Proof.
  intros Hkeyed%keyed_reachable.
  pose proof (keyed_fileNames st Hkeyed) as Hnames.
  destruct Hkeyed as [Hwf Hk].
  assert (listTables st ≡ₚ PyDict.values (_tables st)) as Hperm
    by apply sorted_perm.
  split; [|split].
  - intros t. rewrite Hperm. unfold getTable. split.
    + intros (ft & -> & Hin)%list_elem_of_fmap. destruct ft as [f u].
      simpl. rewrite (Hk f u Hin).
      by rewrite (PyDictFacts.elem_of_get _ _ _ Hwf Hin).
    + destruct (PyDict.get (_tables st) (fileName t)) as [u|] eqn:Hg; [|done].
      intros [= ->]. by eapply PyDictFacts.get_Some_values.
  - rewrite Hperm, Hnames. exact Hwf.
  - rewrite Hperm. unfold PyDict.values, PyDict.keys.
    by rewrite !length_fmap.
Qed.

Lemma listTables_agrees_with_getTable_witness :
  let st := run (sampleEnv "en") OpInitialize initialState in
  (∀ t, t ∈ listTables st ↔ getTable (fileName t) st = Return t st) ∧
  NoDup (fileName <$> listTables st) ∧
  length (listTables st) = length (PyDict.keys (_tables st)).
Proof.
  apply (listTables_agrees_with_getTable (sampleEnv "en")).
  apply reachable_run, reachable_initial.
Defined.

Lemma never_remove_change s s' :
  change s s' →
  keeps_keys s s' ∧ tablesDirs s `suffix_of` tablesDirs s' ∧
  logged s `prefix_of` logged s'.
Proof.
  intros [f t s0 _ _|msg s0|dirs s0]; simpl.
  - split; [apply keeps_keys_register|done].
  - split; [by intros ?|]. split; [done|]. by apply prefix_app_r.
  - split; [by intros ?|]. split; [|done]. by apply suffix_app_r.
Qed.

Lemma never_remove_evolves s s' :
  evolves s s' →
  keeps_keys s s' ∧ tablesDirs s `suffix_of` tablesDirs s' ∧
  logged s `prefix_of` logged s'.
Proof.
  induction 1 as [s|s1 s2 s3 Hc _ (IH1 & IH2 & IH3)].
  - split; [apply keeps_keys_refl|done].
  - apply never_remove_change in Hc as (H1 & H2 & H3).
    split; [by eapply keeps_keys_trans|]. split; by etrans.
Qed.

(** X3. No public operation but [terminate] removes anything: the file
    names registered before are registered after, the directory list
    before is the end of the directory list after, and the log before is
    the beginning of the log after, also when the operation raises. *)
Theorem operations_never_remove E o st :
  o ≠ OpTerminate →
  (∀ f t, getTable f st = Return t st →
          ∃ t', getTable f (run E o st) = Return t' (run E o st)) ∧
  tablesDirs st `suffix_of` tablesDirs (run E o st) ∧
  logged st `prefix_of` logged (run E o st).
Proof.
  intros Ho.
  destruct (never_remove_evolves _ _ (evolves_run E o st Ho)) as (Hk & Hd & Hl).
  split; [|done].
  intros f t. unfold getTable.
  destruct (PyDict.get (_tables st) f) as [u|] eqn:Hg; [|done]. intros _.
  assert (f ∈ PyDict.keys (_tables (run E o st))) as [t' Ht']%PyDictFacts.get_is_Some
    by (apply Hk, PyDictFacts.get_is_Some; eauto).
  exists t'. by rewrite Ht'.
Qed.

Lemma operations_never_remove_witness :
  let st := run (sampleEnv "en")
              (OpAddTable "mine.ctb" "Mine" false true true) initialState in
  let st' := run (sampleEnv "en") OpInitialize st in
  (∀ f t, getTable f st = Return t st →
          ∃ t', getTable f st' = Return t' st') ∧
  tablesDirs st `suffix_of` tablesDirs st' ∧
  logged st `prefix_of` logged st'.
Proof.
  intros st st'.
  apply (operations_never_remove (sampleEnv "en") OpInitialize st).
  discriminate.
Defined.

(** X4. A successful [addTable] for a file name that is not registered
    puts its table last in the registry and changes no other entry;
    [getTable] then returns this table and [listTables] has one table
    more. *)
Theorem addTable_appends st st' f d c o i :
  PyDict.get (_tables st) f = None →
  addTable f d c o i st = Return tt st' →
  _tables st' = _tables st ++ [(f, mkBrailleTable f d c o i)] ∧
  getTable f st' = Return (mkBrailleTable f d c o i) st' ∧
  listTables st' ≡ₚ mkBrailleTable f d c o i :: listTables st.
Proof.
  intros Hnone [_ ->]%addTable_inv.
  assert (_tables (register f (mkBrailleTable f d c o i) st)
          = _tables st ++ [(f, mkBrailleTable f d c o i)]) as Heq.
  { simpl. apply PyDictFacts.set_absent. by apply PyDictFacts.get_None. }
  split; [exact Heq|]. split.
  - unfold getTable. simpl. by rewrite PyDictFacts.get_set_eq.
  - unfold listTables. rewrite !sorted_perm, Heq.
    unfold PyDict.values. rewrite fmap_app. simpl.
    by rewrite <- Permutation_cons_append.
Qed.

Lemma addTable_appends_witness :
  let t := mkBrailleTable "new.ctb" "New" false true true in
  let old := mkBrailleTable "old.ctb" "Old" false true true in
  let st := {| tablesDirs := [TABLES_DIR]; _tables := [("old.ctb", old)];
               logged := [] |} in
  let st' := {| tablesDirs := [TABLES_DIR];
                _tables := [("old.ctb", old); ("new.ctb", t)];
                logged := [] |} in
  _tables st' = _tables st ++ [("new.ctb", t)] ∧
  getTable "new.ctb" st' = Return t st' ∧
  listTables st' ≡ₚ t :: listTables st.
Proof.
  intros t old st st'.
  apply (addTable_appends st st' "new.ctb" "New" false true true); reflexivity.
Defined.

(** ** Loading a configuration *)

Lemma loadCustomTablesConfig_frame E data g st :
  g ∉ PyDict.keys data →
  PyDict.get (_tables (final_state (loadCustomTablesConfig E data st))) g
    = PyDict.get (_tables st) g.
Proof.
  intros Hg.
  apply (loadCustomTablesConfig_preserves E
           (λ s, PyDict.get (_tables s) g = PyDict.get (_tables st) g)
           (λ h, h ≠ g)).
  - intros s h u Hh _ Hs. by apply get_register_ne.
  - intros h Hh ->. done.
  - done.
Qed.

(** X5. [loadCustomTablesConfig] on a dictionary all of whose items
    register a table returns; afterwards [getTable] returns, for each
    item, the table of its file name, of its resolved display name and of
    its flags, [contracted] being false and [output] and [input] true
    when omitted; the entries of the other file names are unchanged. *)
Theorem loadCustomTablesConfig_registers E data f cfg name st :
  PyDict.wf data → applies E data →
  (f, CfgDict cfg) ∈ data →
  _getCustomTableDisplayName E f (CfgDict cfg) = inr name →
  ∃ st',
    loadCustomTablesConfig E data st = Return tt st' ∧
    getTable f st' =
      Return {| fileName := f;
                displayName := name;
                contracted := default false (cfg_contracted cfg);
                output := default true (cfg_output cfg);
                input := default true (cfg_input cfg) |} st' ∧
    (∀ g, g ∉ PyDict.keys data →
          PyDict.get (_tables st') g = PyDict.get (_tables st) g).
Proof.
  intros Hwf Ha Hin Hname.
  exists (final_state (loadCustomTablesConfig E data st)).
  split; [apply returns_unit, loadCustomTablesConfig_returns, Ha|].
  split; [|intros g Hg; by apply loadCustomTablesConfig_frame].
  set (t := {| fileName := f; displayName := name;
               contracted := default false (cfg_contracted cfg);
               output := default true (cfg_output cfg);
               input := default true (cfg_input cfg) |}).
  assert (customTable E f (CfgDict cfg) = inr t) as Ht.
  { destruct (Ha f (CfgDict cfg) Hin) as [t' Ht']. revert Ht'.
    unfold customTable. rewrite Hname. fold t.
    by destruct (usable t). }
  unfold getTable.
  by rewrite (loadCustomTablesConfig_get E data f (CfgDict cfg) t st Hwf Ha Hin Ht).
Qed.

Lemma loadCustomTablesConfig_registers_witness :
  let bar := {| cfg_contracted := Some true; cfg_output := None;
                cfg_input := Some false;
                cfg_displayName := Some (DNDict sample_names) |} in
  let data := [("foo.ctb", sample_cfg (Some (DNStr "Foo")));
               ("bar.ctb", CfgDict bar)] in
  ∃ st',
    loadCustomTablesConfig (sampleEnv "de_AT") data initialState
      = Return tt st' ∧
    getTable "bar.ctb" st' =
      Return (mkBrailleTable "bar.ctb" "Z" true true false) st' ∧
    (∀ g, g ∉ PyDict.keys data →
          PyDict.get (_tables st') g = PyDict.get (_tables initialState) g).
Proof.
  intros bar data.
  apply (loadCustomTablesConfig_registers (sampleEnv "de_AT") data "bar.ctb"
           bar "Z" initialState).
  - apply (bool_decide_unpack _). vm_compute. exact I.
  - intros f cfg [[= -> ->]|[= -> ->]%list_elem_of_singleton]%elem_of_cons;
      eexists; vm_compute; reflexivity.
  - right. left.
  - vm_compute. reflexivity.
Defined.

(** X6. [loadCustomTablesConfig] is not atomic: when the items before one
    all register a table and this one raises, the call raises this
    exception, the tables of the items before stay registered, and the
    items after are not looked at. *)
Theorem loadCustomTablesConfig_stops_at_first_error E good f cfg rest e st :
  applies E good →
  (∀ s, loadCustomTable E (f, cfg) s = Raise e s) →
  loadCustomTablesConfig E (good ++ (f, cfg) :: rest) st =
    Raise e (final_state (loadCustomTablesConfig E good st)) ∧
  returns (loadCustomTablesConfig E good st) = true.
Proof.
  intros Ha He.
  pose proof (loadCustomTablesConfig_returns E good st Ha) as Hret.
  split; [|exact Hret].
  unfold loadCustomTablesConfig, PyDict.items in *.
  rewrite for_each_app.
  - rewrite for_each_cons, He. done.
  - intros [g c] s Hin. rewrite loadCustomTable_spec.
    destruct (Ha g c Hin) as [t ->]. done.
Qed.

Lemma loadCustomTablesConfig_stops_at_first_error_witness :
  loadCustomTablesConfig (sampleEnv "en")
    [("foo.ctb", sample_cfg (Some (DNStr "Foo")));
     ("bar.ctb", sample_cfg None);
     ("baz.ctb", sample_cfg (Some (DNStr "Baz")))]
    initialState =
  Raise ValueError
    {| tablesDirs := [TABLES_DIR];
       _tables := [("foo.ctb", mkBrailleTable "foo.ctb" "Foo" false true true)];
       logged := [] |}.
Proof.
  apply (proj1 (loadCustomTablesConfig_stops_at_first_error (sampleEnv "en")
                  [("foo.ctb", sample_cfg (Some (DNStr "Foo")))]
                  "bar.ctb" (sample_cfg None)
                  [("baz.ctb", sample_cfg (Some (DNStr "Baz")))]
                  ValueError initialState
                  ltac:(intros f cfg [= -> ->]%list_elem_of_singleton;
                        eexists; vm_compute; reflexivity)
                  ltac:(intros s; reflexivity))).
Defined.



(** ** The custom directories *)

(** The selection of the elements that satisfy a predicate is the
    largest of the sublists whose elements all satisfy it. *)
Lemma sublist_filter_greatest {A} (P : A → Prop) `{!∀ x, Decision (P x)}
    (l k : list A) :
  l `sublist_of` k → Forall P l → l `sublist_of` filter P k.
Proof.
  induction 1 as [|x l k Hlk IH|x l k Hlk IH]; intros Hl.
  - apply sublist_nil_l.
  - apply Forall_cons in Hl as [Hx Hl].
    rewrite filter_cons_True by done. apply sublist_skip. by apply IH.
  - rewrite filter_cons. destruct (decide (P x)); [|by apply IH].
    apply sublist_cons. by apply IH.
Qed.

(** X8. [_getCustomTablesDirs] returns, in their order, exactly the
    candidates that are existing directories: the result is a sublist of
    the candidates, all its members are directories, every candidate
    that is a directory is in it, and every selection of candidates that
    are directories is a sublist of it. The candidates are the
    [brailleTables] directory of the scratchpad, when it is enabled out
    of secure mode, then the one of each running add-on. In secure mode,
    or with the scratchpad disabled, every directory of the result is
    the one of a running add-on; with the scratchpad enabled, out of
    secure mode, and its [brailleTables] directory existing, this
    directory comes first. *)
Theorem customTablesDirs_selection E :
  _getCustomTablesDirs E `sublist_of` candidates E ∧
  (∀ d, d ∈ _getCustomTablesDirs E → isdir E d = true) ∧
  (secure E = true ∨ enableScratchpadDir E = false →
   ∀ d, d ∈ _getCustomTablesDirs E →
     ∃ addon, addon ∈ getRunningAddons E ∧
              d = path_join E addon "brailleTables") ∧
  (secure E = false → enableScratchpadDir E = true →
   isdir E (path_join E (getScratchpadDir E) "brailleTables") = true →
   head (_getCustomTablesDirs E)
     = Some (path_join E (getScratchpadDir E) "brailleTables")) ∧
  (∀ d, d ∈ candidates E → isdir E d = true → d ∈ _getCustomTablesDirs E) ∧
  (∀ l, l `sublist_of` candidates E → (∀ d, d ∈ l → isdir E d = true) →
        l `sublist_of` _getCustomTablesDirs E) ∧
  (∀ d, d ∈ candidates E ↔
        (secure E = false ∧ enableScratchpadDir E = true ∧
         d = path_join E (getScratchpadDir E) "brailleTables") ∨
        (∃ addon, addon ∈ getRunningAddons E ∧
                  d = path_join E addon "brailleTables")) ∧
  (∀ addon, addon ∈ getRunningAddons E →
     isdir E (path_join E addon "brailleTables") = true →
     path_join E addon "brailleTables" ∈ _getCustomTablesDirs E).
Proof.
  assert (∀ d, d ∈ candidates E ↔
            (secure E = false ∧ enableScratchpadDir E = true ∧
             d = path_join E (getScratchpadDir E) "brailleTables") ∨
            (∃ addon, addon ∈ getRunningAddons E ∧
                      d = path_join E addon "brailleTables")) as Hcand.
  { intros d. unfold candidates. rewrite elem_of_app.
    assert (d ∈ (λ addon_path, path_join E addon_path "brailleTables")
                  <$> getRunningAddons E ↔
            ∃ addon, addon ∈ getRunningAddons E ∧
                     d = path_join E addon "brailleTables") as ->.
    { rewrite list_elem_of_fmap. split; intros (x & ? & ?); by exists x. }
    destruct (secure E), (enableScratchpadDir E); cbn [negb andb];
      rewrite ?list_elem_of_singleton, ?elem_of_nil;
      intuition discriminate. }
  unfold _getCustomTablesDirs. split; [apply sublist_filter|].
  split; [by intros d [Hd _]%list_elem_of_filter|].
  split; [|split; [|split; [|split; [|split]]]].
  - intros Hoff d [_ Hd]%list_elem_of_filter. unfold candidates in Hd.
    assert (negb (secure E) && enableScratchpadDir E = false) as Hoff'
      by (destruct Hoff as [-> | ->]; [done|by destruct (secure E)]).
    rewrite Hoff' in Hd. simpl in Hd. apply list_elem_of_fmap in Hd as (addon & -> & Haddon).
    by exists addon.
  - intros Hs He Hdir. unfold candidates. rewrite Hs, He. simpl.
    by rewrite filter_cons_True.
  - intros d Hd Hdir. by apply list_elem_of_filter.
  - intros l Hl Hdir. apply sublist_filter_greatest; [done|].
    by apply Forall_forall.
  - exact Hcand.
  - intros addon Haddon Hdir. apply list_elem_of_filter. split; [done|].
    apply Hcand. right. by exists addon.
Qed.

Lemma customTablesDirs_selection_witness :
  head (_getCustomTablesDirs (sampleEnv "en"))
    = Some "C:\scratch\brailleTables" ∧
  "C:\addons\b\brailleTables" ∈ _getCustomTablesDirs (sampleEnv "en").
Proof.
  destruct (customTablesDirs_selection (sampleEnv "en"))
    as (_ & _ & _ & Hhead & _ & _ & _ & Haddon).
  split; [apply Hhead; reflexivity|].
  apply (Haddon "C:\addons\b"); [|reflexivity].
  apply (bool_decide_unpack _). vm_compute. exact I.
Defined.

Section dirs_facts.
Variable E : Env.

Lemma tablesDirs_addBuiltinTables st :
  tablesDirs (final_state (addBuiltinTables E st)) = tablesDirs st.
Proof.
  apply (addBuiltinTables_preserves E
           (λ s, tablesDirs s = tablesDirs st) (λ _, True)).
  - intros s f t _ _ Hs. exact Hs.
  - intros; exact I.
  - reflexivity.
Qed.

Lemma tablesDirs_loadCustomDirs dirs st :
  tablesDirs (final_state (for_each dirs (loadCustomDir E) st)) = tablesDirs st.
Proof.
  apply (loadCustomDirs_preserves E
           (λ s, tablesDirs s = tablesDirs st) (λ _, True)).
  - intros s msg Hs. exact Hs.
  - intros s f t _ _ Hs. exact Hs.
  - intros; exact I.
  - reflexivity.
Qed.

Lemma tablesDirs_initialize st :
  tablesDirs (final_state (initialize E st))
    = _getCustomTablesDirs E ++ tablesDirs st.
Proof.
  rewrite initialize_eq. unfold addCustomTables.
  erewrite bind_Return; [|reflexivity].
  rewrite tablesDirs_loadCustomDirs. cbn [prependTablesDirs final_state tablesDirs].
  by rewrite tablesDirs_addBuiltinTables.
Qed.
End dirs_facts.

(** X9. [initialize] puts the custom directories, in their order, before
    the directory list it finds, also when it raises: after [terminate]
    the list is the custom directories followed by [TABLES_DIR], and a
    second [initialize] without [terminate] puts the custom directories
    once more before the list. *)
Theorem initialize_tablesDirs E st :
  tablesDirs (final_state (initialize E st))
    = _getCustomTablesDirs E ++ tablesDirs st ∧
  tablesDirs (final_state (initialize E (final_state (terminate st))))
    = _getCustomTablesDirs E ++ [TABLES_DIR] ∧
  tablesDirs (final_state (initialize E (final_state (initialize E st))))
    = _getCustomTablesDirs E ++ _getCustomTablesDirs E ++ tablesDirs st.
Proof.
  split; [apply tablesDirs_initialize|]. split.
  - rewrite tablesDirs_initialize. reflexivity.
  - rewrite !tablesDirs_initialize. reflexivity.
Qed.

(** ** The builtin tables *)

Lemma builtin_fileNames_NoDup : NoDup (b_fileName <$> builtinTables).
Proof. apply (bool_decide_unpack _). vm_compute. exact I. Qed.

Lemma addBuiltinTables_get E st b :
  b ∈ builtinTables →
  PyDict.get (_tables (final_state (addBuiltinTables E st))) (b_fileName b)
    = Some (builtinTable E b).
Proof.
  assert (Forall (λ b, b_output b || b_input b = true) builtinTables) as Hall.
  { apply Forall_forall; intros x Hx%list_elem_of_In.
    apply (proj1 (forallb_forall (λ b, b_output b || b_input b)
                    builtinTables) eq_refl x Hx). }
  pose proof builtin_fileNames_NoDup as Hnd.
  unfold addBuiltinTables. revert st Hall Hnd.
  generalize builtinTables as l.
  induction l as [|x l IH]; intros st Hall Hnd Hb;
    [by apply elem_of_nil in Hb|].
  apply Forall_cons in Hall as [Hx Hall].
  rewrite fmap_cons in Hnd. apply NoDup_cons in Hnd as [Hxl Hnd].
  rewrite for_each_cons, addTable_usable by done.
  apply elem_of_cons in Hb as [->|Hb]; [|by apply IH].
  apply (for_each_preserves _
           (λ s, PyDict.get (_tables s) (b_fileName x)
                 = Some (builtinTable E x))).
  - intros y s Hy Hs.
    destruct (b_output y || b_input y) eqn:Hu.
    + rewrite addTable_usable by done. apply get_register_ne; [|done].
      intros Heq. apply Hxl. rewrite <- Heq. by apply list_elem_of_fmap_2.
    + apply orb_false_iff in Hu as [-> ->]. exact Hs.
  - simpl. apply PyDictFacts.get_set_eq.
Qed.

Lemma initialize_get_builtin E st b :
  b ∈ builtinTables →
  (∀ d, d ∈ _getCustomTablesDirs E → ¬ dir_defines E d (b_fileName b)) →
  PyDict.get (_tables (final_state (initialize E st))) (b_fileName b)
    = Some (builtinTable E b).
Proof.
  intros Hb Hnot. rewrite initialize_eq.
  apply (addCustomTables_preserves E
           (λ s, PyDict.get (_tables s) (b_fileName b)
                 = Some (builtinTable E b))
           (λ h, h ≠ b_fileName b)).
  - intros s msg Hs. exact Hs.
  - intros s dirs Hs. exact Hs.
  - intros s h u Hh _ Hs. by apply get_register_ne.
  - intros d h Hd Hdef ->. by apply (Hnot d).
  - by apply addBuiltinTables_get.
Qed.

(** X10. After [initialize], from any state and also when it raises,
    [getTable] returns for the file name of a builtin table that no
    custom directory defines the table of its [addTable] call: this file
    name, the translation of its name, and its flags. *)
Theorem builtin_table_registered E st b :
  b ∈ builtinTables →
  (∀ d, d ∈ _getCustomTablesDirs E → ¬ dir_defines E d (b_fileName b)) →
  getTable (b_fileName b) (final_state (initialize E st))
    = Return (builtinTable E b) (final_state (initialize E st)).
Proof.
  intros Hb Hnot. unfold getTable.
  by rewrite (initialize_get_builtin E st b Hb Hnot).
Qed.

Lemma sampleEnv_defines lang d f :
  dir_defines (sampleEnv lang) d f → f = "foo.ctb" ∨ f = "bar.ctb".
Proof.
  intros (files & m & _ & _ & data & (_ & _ & Hdata) & Hk).
  cbn [sampleEnv CustomTablesManifest] in Hdata.
  unfold sample_manifest in Hdata.
  repeat match type of Hdata with
  | context [String.eqb ?a ?b] => destruct (String.eqb a b)
  end; try discriminate; injection Hdata as <-;
    apply list_elem_of_singleton in Hk; auto.
Qed.

Lemma builtin_table_registered_witness :
  getTable "unicode-braille.utb"
    (final_state (initialize (sampleEnv "en") initialState))
    = Return (builtinTable (sampleEnv "en")
                (builtin "unicode-braille.utb" "Unicode braille"
                   false false true))
        (final_state (initialize (sampleEnv "en") initialState)).
Proof.
  apply (builtin_table_registered (sampleEnv "en") initialState
           (builtin "unicode-braille.utb" "Unicode braille" false false true)).
  - apply (list_elem_of_lookup_2 _ 103). reflexivity.
  - intros d _ [Hf|Hf]%sampleEnv_defines; discriminate Hf.
Defined.

(** X11. [getFallbackTable] raises [KeyError] in a freshly imported
    module and after [terminate]; after [initialize] it returns a table,
    and when no custom directory defines [FALLBACK_TABLE_NAME] this table
    is the builtin one, uncontracted and usable for both output and
    input. *)
Theorem fallback_table E st :
  getFallbackTable initialState = Raise KeyError initialState ∧
  getFallbackTable (final_state (terminate st))
    = Raise KeyError (final_state (terminate st)) ∧
  (∃ t, getFallbackTable (final_state (initialize E st))
        = Return t (final_state (initialize E st))) ∧
  ((∀ d, d ∈ _getCustomTablesDirs E →
         ¬ dir_defines E d FALLBACK_TABLE_NAME) →
   ∃ t, getFallbackTable (final_state (initialize E st))
        = Return t (final_state (initialize E st)) ∧
        fileName t = FALLBACK_TABLE_NAME ∧ contracted t = false ∧
        output t = true ∧ input t = true).
Proof.
  split; [reflexivity|]. split; [reflexivity|].
  split; [apply getFallbackTable_after_initialize|].
  intros Hnot.
  pose (b := builtin "en-ueb-g1.ctb" "Unified English Braille Code grade 1"
               false true true).
  assert (b ∈ builtinTables) as Hb
    by (apply (list_elem_of_lookup_2 _ 26); reflexivity).
  exists (builtinTable E b). split; [|done].
  unfold getFallbackTable, getTable.
  change FALLBACK_TABLE_NAME with (b_fileName b).
  by rewrite (initialize_get_builtin E st b Hb Hnot).
Qed.

Lemma fallback_table_witness :
  ∃ t, getFallbackTable (final_state (initialize (sampleEnv "en") initialState))
       = Return t (final_state (initialize (sampleEnv "en") initialState)) ∧
       fileName t = FALLBACK_TABLE_NAME ∧ contracted t = false ∧
       output t = true ∧ input t = true.
Proof.
  apply (proj2 (proj2 (proj2 (fallback_table (sampleEnv "en") initialState)))).
  intros d _ [Hf|Hf]%sampleEnv_defines; discriminate Hf.
Defined.

(** ** The load does not read the log *)

Lemma same_globals_refl s : same_globals s s.
Proof. done. Qed.

Lemma same_outcome_final o1 o2 :
  same_outcome o1 o2 →
  same_globals (final_state o1) (final_state o2) ∧ returns o1 = returns o2.
Proof. destruct o1, o2; simpl; intuition. Qed.

Lemma log_blind_addTable f d c o i : log_blind (addTable f d c o i).
Proof.
  intros s1 s2 [Hd Ht]. unfold addTable.
  destruct (negb o && negb i); simpl; [done|].
  split; simpl; [done|by rewrite Ht].
Qed.

Lemma log_blind_log_write msg : log_blind (log_write msg).
Proof. by intros s1 s2 [Hd Ht]. Qed.

Lemma log_blind_prependTablesDirs dirs : log_blind (prependTablesDirs dirs).
Proof. intros s1 s2 [Hd Ht]. split; simpl; [by rewrite Hd|done]. Qed.

Lemma log_blind_bind (m : M ()) (k : M ()) :
  log_blind m → log_blind k → log_blind (m ≫= λ _, k).
Proof.
  intros Hm Hk s1 s2 Hs. specialize (Hm s1 s2 Hs).
  unfold mbind, M_bind.
  destruct (m s1) as [[] s1'|e1 s1'], (m s2) as [[] s2'|e2 s2']; simpl in *;
    try done.
  by apply Hk.
Qed.

Lemma log_blind_for_each {A} (body : A → M ()) xs :
  (∀ x, x ∈ xs → log_blind (body x)) → log_blind (for_each xs body).
Proof.
  induction xs as [|x xs IH]; intros Hb; [by intros s1 s2 Hs|].
  apply log_blind_bind; [apply Hb; by left|].
  apply IH. intros y Hy. apply Hb. by right.
Qed.

Lemma log_blind_try_except (m : M ()) (handler : exn → M ()) :
  log_blind m → (∀ e, log_blind (handler e)) → log_blind (try_except m handler).
Proof.
  intros Hm Hh s1 s2 Hs. specialize (Hm s1 s2 Hs). unfold try_except.
  destruct (m s1) as [[] s1'|e1 s1'], (m s2) as [[] s2'|e2 s2']; simpl in *;
    try done.
  destruct Hm as [<- Hs']. by apply Hh.
Qed.

Section log_blind_facts.
Variable E : Env.

Lemma log_blind_loadCustomTablesConfig data :
  log_blind (loadCustomTablesConfig E data).
Proof.
  apply log_blind_for_each. intros [f cfg] _ s1 s2 [Hd Ht].
  rewrite !loadCustomTable_spec.
  destruct (customTable E f cfg) as [e|t]; simpl; [done|].
  split; simpl; [done|by rewrite Ht].
Qed.

Lemma log_blind_applyManifest dir_ fileName :
  log_blind (applyManifest E dir_ fileName).
Proof.
  unfold applyManifest.
  destruct (isfile E _ && endswith fileName ".ini"); [|by intros s1 s2 Hs].
  apply log_blind_try_except; [|intros e; apply log_blind_log_write].
  unfold mbind, M_bind, lift.
  destruct (CustomTablesManifest E _) as [e|data]; [by intros s1 s2 Hs|].
  apply log_blind_loadCustomTablesConfig.
Qed.

Lemma log_blind_loadCustomDir dir_ : log_blind (loadCustomDir E dir_).
Proof.
  unfold loadCustomDir. destruct (listdir E dir_) as [e|files].
  - destruct e; first [apply log_blind_log_write | by intros s1 s2 Hs].
  - apply log_blind_for_each. intros m _. apply log_blind_applyManifest.
Qed.

Lemma log_blind_addBuiltinTables : log_blind (addBuiltinTables E).
Proof.
  unfold addBuiltinTables. generalize builtinTables as l. intros l.
  apply log_blind_for_each. intros b _. apply log_blind_addTable.
Qed.

Lemma log_blind_addCustomTables : log_blind (addCustomTables E).
Proof.
  unfold addCustomTables.
  apply (log_blind_bind (prependTablesDirs (_getCustomTablesDirs E))
           (for_each (reverse (_getCustomTablesDirs E)) (loadCustomDir E))).
  - apply log_blind_prependTablesDirs.
  - apply log_blind_for_each. intros d _. apply log_blind_loadCustomDir.
Qed.

Lemma log_blind_initialize : log_blind (initialize E).
Proof.
  exact (log_blind_bind (addBuiltinTables E) (addCustomTables E)
           log_blind_addBuiltinTables log_blind_addCustomTables).
Qed.
End log_blind_facts.

(** X12. [terminate] restores the state of a freshly imported module as
    far as [initialize] can tell: after [terminate], from any state,
    [initialize] returns or raises as it does in a fresh module, and
    leaves the same registry and the same directory list. *)
Theorem initialize_after_terminate E st :
  let after := initialize E (final_state (terminate st)) in
  let fresh := initialize E initialState in
  _tables (final_state after) = _tables (final_state fresh) ∧
  tablesDirs (final_state after) = tablesDirs (final_state fresh) ∧
  returns after = returns fresh.
Proof.
  intros after fresh. subst after fresh.
  assert (same_globals (final_state (terminate st)) initialState) as Hs
    by (split; reflexivity).
  destruct (same_outcome_final _ _ (log_blind_initialize E _ _ Hs))
    as [[Hd Ht] Hr].
  split; [exact Ht|]. split; [exact Hd|exact Hr].
Qed.

(** ** Files and directories of a load *)

Lemma logged_loadCustomTablesConfig E data st :
  logged (final_state (loadCustomTablesConfig E data st)) = logged st.
Proof.
  apply (loadCustomTablesConfig_preserves E
           (λ s, logged s = logged st) (λ _, True)).
  - intros s f t _ _ Hs. exact Hs.
  - intros; exact I.
  - reflexivity.
Qed.

(** X13. The iteration of a file logs one record, with the path of the
    file, when the file is read as a manifest (a regular file whose name
    ends with [.ini]) and its opening, its parsing or the registration of
    its tables raises; it logs nothing otherwise. *)
Theorem applyManifest_log E dir_ fileName st :
  logged (final_state (applyManifest E dir_ fileName st)) =
    logged st ++
    (if is_manifest E dir_ fileName then
       match CustomTablesManifest E (path_join E dir_ fileName) with
       | inr data =>
           if returns (loadCustomTablesConfig E data st) then []
           else [manifest_error_record E dir_ fileName]
       | inl _ => [manifest_error_record E dir_ fileName]
       end
     else []).
Proof.
  unfold applyManifest, is_manifest.
  destruct (isfile E _ && endswith fileName ".ini"); simpl;
    [|by rewrite app_nil_r].
  unfold try_except, mbind, M_bind, lift.
  destruct (CustomTablesManifest E _) as [e|data]; simpl; [done|].
  pose proof (logged_loadCustomTablesConfig E data st) as Hl.
  destruct (loadCustomTablesConfig E data st) as [[] s|e s]; simpl in *.
  - by rewrite app_nil_r.
  - by rewrite Hl.
Qed.

(** X14. A directory is loaded from its manifests alone: the files that
    are not regular files whose name ends with [.ini] change nothing, so
    the loop over a listing is the loop over its manifests, and a listing
    without a manifest leaves the state as it is. *)
Theorem loadCustomDir_reads_manifests_only E dir_ files st :
  for_each files (applyManifest E dir_) st =
    for_each (filter (λ m, is_manifest E dir_ m = true) files)
      (applyManifest E dir_) st ∧
  ((∀ m, m ∈ files → is_manifest E dir_ m = false) →
   for_each files (applyManifest E dir_) st = Return tt st).
Proof.
  assert (∀ m s, is_manifest E dir_ m = false →
                 applyManifest E dir_ m s = Return tt s) as Hskip.
  { intros m s Hm. unfold applyManifest. unfold is_manifest in Hm.
    by rewrite Hm. }
  split.
  - revert st. induction files as [|m files IH]; intros st; [done|].
    destruct (is_manifest E dir_ m) eqn:Hm.
    + rewrite filter_cons_True by done. rewrite !for_each_cons.
      destruct (applyManifest E dir_ m st); [apply IH|done].
    + rewrite filter_cons_False by (by rewrite Hm).
      rewrite for_each_cons, (Hskip m st Hm). apply IH.
  - revert st. induction files as [|m files IH]; intros st Hnone; [done|].
    rewrite for_each_cons, (Hskip m st) by (apply Hnone; by left).
    apply IH. intros m' Hm'. apply Hnone. by right.
Qed.

Lemma loadCustomDir_reads_manifests_only_witness :
  for_each ["notes.txt"; "README"]
    (applyManifest (sampleEnv "en") "C:\scratch\brailleTables") initialState
  = Return tt initialState.
Proof.
  apply (proj2 (loadCustomDir_reads_manifests_only (sampleEnv "en")
                  "C:\scratch\brailleTables" ["notes.txt"; "README"]
                  initialState)).
  intros m [->|[->|Hm]%elem_of_cons]%elem_of_cons;
    [reflexivity|reflexivity|by apply elem_of_nil in Hm].
Defined.

(** X15. [initialize] handles [FileNotFoundError] only: when listing a
    custom directory raises another exception, [initialize] raises this
    exception, in the state left by the directories processed before
    (those listed after it); the directories listed before it are not
    loaded, and the custom directories are already in [tablesDirs]. *)
Theorem initialize_propagates_listdir_error E st before d after e :
  reverse (_getCustomTablesDirs E) = before ++ d :: after →
  (∀ d' e', d' ∈ before → listdir E d' = inl e' → e' = FileNotFoundError) →
  listdir E d = inl e → e ≠ FileNotFoundError →
  initialize E st =
    Raise e
      (final_state
         (for_each before (loadCustomDir E)
            (final_state
               (prependTablesDirs (_getCustomTablesDirs E)
                  (final_state (addBuiltinTables E st)))))) ∧
  tablesDirs (final_state (initialize E st))
    = _getCustomTablesDirs E ++ tablesDirs st.
Proof.
  intros Hrev Hbefore Hd He. split; [|apply tablesDirs_initialize].
  rewrite initialize_eq.
  generalize (final_state (addBuiltinTables E st)). intros s0.
  unfold addCustomTables. erewrite bind_Return; [|reflexivity].
  rewrite Hrev. rewrite for_each_app.
  - rewrite for_each_cons. by rewrite (loadCustomDir_raises E d e _ Hd He).
  - intros d' s Hd'. apply loadCustomDir_returns.
    intros e'. by apply Hbefore.
Qed.

Lemma initialize_propagates_listdir_error_witness :
  ∃ s, initialize lockedEnv initialState
         = Raise (ManifestError "PermissionError") s ∧
       (∃ t, getTable "bar.ctb" s = Return t s) ∧
       getTable "foo.ctb" s = Raise KeyError s.
Proof.
  destruct (initialize_propagates_listdir_error lockedEnv initialState
              ["C:\addons\b\brailleTables"] "C:\addons\a\brailleTables"
              ["C:\scratch\brailleTables"] (ManifestError "PermissionError"))
    as [Hinit _].
  - vm_compute. reflexivity.
  - intros d' e' ->%list_elem_of_singleton. vm_compute. discriminate.
  - reflexivity.
  - discriminate.
  - eexists. split; [exact Hinit|]. split.
    + eexists. vm_compute. reflexivity.
    + vm_compute. reflexivity.
Defined.

(** ** Languages and territories *)

(** X16. Two languages with the same part before the first underscore
    ([de_AT] and [de_CH]) get the same display name from a dictionary
    that has no name, or an empty one, for either of them. *)
Theorem regional_variants_share_language E1 E2 f cfg value p :
  cfg_displayName cfg = Some (DNDict value) →
  language_prefix (getLanguage E1) p →
  language_prefix (getLanguage E2) p →
  missing value (getLanguage E1) →
  missing value (getLanguage E2) →
  _getCustomTableDisplayName E1 f (CfgDict cfg)
    = _getCustomTableDisplayName E2 f (CfgDict cfg).
Proof.
  intros Hc Hp1 Hp2 H1%truthy_missing H2%truthy_missing.
  unfold _getCustomTableDisplayName, cfg_get. rewrite Hc.
  rewrite (split_head_prefix _ _ Hp1), (split_head_prefix _ _ Hp2).
  cbn [from_option id]. cbv zeta.
  repeat (rewrite ?H1, ?H2; cbn [negb]). reflexivity.
Qed.

Lemma regional_variants_share_language_witness :
  _getCustomTableDisplayName (sampleEnv "de_AT") "foo.ctb"
    (sample_cfg (Some (DNDict sample_names)))
  = _getCustomTableDisplayName (sampleEnv "de_CH") "foo.ctb"
      (sample_cfg (Some (DNDict sample_names))).
Proof.
  apply (regional_variants_share_language (sampleEnv "de_AT")
           (sampleEnv "de_CH") "foo.ctb"
           {| cfg_contracted := None; cfg_output := None; cfg_input := None;
              cfg_displayName := Some (DNDict sample_names) |}
           sample_names "de").
  - reflexivity.
  - split; [intros [|[|n]]; simpl; discriminate|].
    right. exists "AT". reflexivity.
  - split; [intros [|[|n]]; simpl; discriminate|].
    right. exists "CH". reflexivity.
  - left. vm_compute. reflexivity.
  - left. vm_compute. reflexivity.
Defined.

(** ** Old and new names *)

Lemma addBuiltinTables_keys_inv E st k :
  k ∈ PyDict.keys (_tables (final_state (addBuiltinTables E st))) →
  k ∈ PyDict.keys (_tables st) ∨ k ∈ b_fileName <$> builtinTables.
Proof.
  revert k.
  apply (addBuiltinTables_preserves E
           (λ s, ∀ k, k ∈ PyDict.keys (_tables s) →
                      k ∈ PyDict.keys (_tables st)
                      ∨ k ∈ b_fileName <$> builtinTables)
           (λ f, f ∈ b_fileName <$> builtinTables)).
  - intros s f t Hf _ Hs k [->|Hk]%PyDictFacts.elem_of_keys_set;
      [by right|by apply Hs].
  - intros b Hb. by apply list_elem_of_fmap_2.
  - intros k Hk. by left.
Qed.

Lemma renamed_old_names :
  Forall (λ kv, (kv.1 ∉ b_fileName <$> builtinTables) ∧
                PyDict.get RENAMED_TABLES kv.2 = None) RENAMED_TABLES.
Proof. apply (bool_decide_unpack _). vm_compute. exact I. Qed.

(** X17. The old names of [RENAMED_TABLES] need their new name: no old
    name is twice in the dictionary, no old name is the file name of a
    builtin table, so that [getTable] raises [KeyError] for it once the
    builtin tables are added to an empty registry ([getTable] does not
    look into [RENAMED_TABLES]), and no new name is itself an old name. *)
Theorem renamed_tables_are_needed E :
  NoDup (PyDict.keys RENAMED_TABLES) ∧
  ∀ old new, (old, new) ∈ RENAMED_TABLES →
    getTable old (final_state (addBuiltinTables E initialState))
      = Raise KeyError (final_state (addBuiltinTables E initialState)) ∧
    PyDict.get RENAMED_TABLES new = None.
Proof.
  split; [apply (bool_decide_unpack _); vm_compute; exact I|].
  intros old new Hin.
  pose proof renamed_old_names as Hall. rewrite Forall_forall in Hall.
  destruct (Hall _ Hin) as [Hold Hnew]. split; [|exact Hnew].
  unfold getTable.
  destruct (PyDict.get _ old) as [t|] eqn:Hg; [|done].
  exfalso.
  assert (old ∈ PyDict.keys
                  (_tables (final_state (addBuiltinTables E initialState))))
    as [Hk|Hk]%addBuiltinTables_keys_inv
    by (apply PyDictFacts.get_is_Some; eauto).
  - by apply elem_of_nil in Hk.
  - by apply Hold.
Qed.

Lemma renamed_tables_are_needed_witness :
  getTable "UEBC-g2.ctb"
    (final_state (addBuiltinTables (sampleEnv "en") initialState))
    = Raise KeyError
        (final_state (addBuiltinTables (sampleEnv "en") initialState)) ∧
  PyDict.get RENAMED_TABLES "en-ueb-g2.ctb" = None.
Proof.
  apply (proj2 (renamed_tables_are_needed (sampleEnv "en"))
           "UEBC-g2.ctb" "en-ueb-g2.ctb").
  apply (bool_decide_unpack _). vm_compute. exact I.
Defined.

(** ** Manifests of one directory *)

(** X18. When several manifests of one directory define a table, the one
    that [os.listdir] lists last decides: loading the directory leaves
    for [f] the table of the last manifest that defines it, provided
    this manifest parses and registers all its tables. *)
Theorem last_manifest_of_directory_wins E dir_ before m after data f cfg
    name st :
  listdir E dir_ = inr (before ++ m :: after) →
  manifest_of E dir_ m data → PyDict.wf data → applies E data →
  (∀ m', m' ∈ after → ¬ file_defines E dir_ m' f) →
  (f, CfgDict cfg) ∈ data →
  _getCustomTableDisplayName E f (CfgDict cfg) = inr name →
  ∃ st',
    loadCustomDir E dir_ st = Return tt st' ∧
    getTable f st' =
      Return {| fileName := f;
                displayName := name;
                contracted := default false (cfg_contracted cfg);
                output := default true (cfg_output cfg);
                input := default true (cfg_input cfg) |} st'.
Proof.
  intros Hlist Hm Hwf Ha Hafter Hin Hname.
  set (t := {| fileName := f; displayName := name;
               contracted := default false (cfg_contracted cfg);
               output := default true (cfg_output cfg);
               input := default true (cfg_input cfg) |}).
  assert (customTable E f (CfgDict cfg) = inr t) as Ht.
  { destruct (Ha f (CfgDict cfg) Hin) as [t' Ht']. revert Ht'.
    unfold customTable. rewrite Hname. fold t.
    by destruct (usable t). }
  exists (final_state (loadCustomDir E dir_ st)). split.
  - apply returns_unit, loadCustomDir_returns.
    intros e He. rewrite Hlist in He. discriminate.
  - unfold getTable.
    by rewrite (loadCustomDir_get E dir_ before m after data f (CfgDict cfg)
                  t st Hlist Hm Hwf Ha Hin Ht Hafter).
Qed.

Lemma last_manifest_of_directory_wins_witness :
  ∃ st',
    loadCustomDir twinEnv "C:\addons\a\brailleTables" initialState
      = Return tt st' ∧
    getTable "foo.ctb" st' =
      Return (mkBrailleTable "foo.ctb" "Foo of z.ini" false true true) st'.
Proof.
  apply (last_manifest_of_directory_wins twinEnv "C:\addons\a\brailleTables"
           ["a.ini"] "z.ini" []
           [("foo.ctb", sample_cfg (Some (DNStr "Foo of z.ini")))]
           "foo.ctb"
           {| cfg_contracted := None; cfg_output := None; cfg_input := None;
              cfg_displayName := Some (DNStr "Foo of z.ini") |}
           "Foo of z.ini" initialState).
  - reflexivity.
  - repeat split.
  - apply NoDup_singleton.
  - intros f cfg [= -> ->]%list_elem_of_singleton.
    eexists. vm_compute. reflexivity.
  - intros m' Hm'. by apply elem_of_nil in Hm'.
  - apply list_elem_of_singleton. reflexivity.
  - reflexivity.
Defined.

(** ** Initializing twice *)

Section set_all_facts.
Context {V : Type}.
Implicit Types (d : PyDict.dict V) (l : list (string * V)).

Lemma set_all_cons d k v l :
  set_all d ((k, v) :: l) = set_all (PyDict.set d k v) l.
Proof. done. Qed.

Lemma set_all_app d l1 l2 : set_all (set_all d l1) l2 = set_all d (l1 ++ l2).
Proof. unfold set_all. by rewrite foldl_app. Qed.

Lemma get_set_all d l k :
  PyDict.get (set_all d l) k =
    match last_binding l k with
    | Some v => Some v
    | None => PyDict.get d k
    end.
Proof.
  revert d. induction l as [|[k0 v0] l IH]; intros d; [done|].
  rewrite set_all_cons, IH. cbn [last_binding].
  destruct (last_binding l k); [done|].
  destruct (String.eqb_spec k0 k) as [->|Hne].
  - apply PyDictFacts.get_set_eq.
  - by apply PyDictFacts.get_set_ne.
Qed.

Lemma wf_set_all d l : PyDict.wf d → PyDict.wf (set_all d l).
Proof.
  revert d. induction l as [|[k v] l IH]; intros d Hwf; [done|].
  rewrite set_all_cons. apply IH. by apply PyDictFacts.wf_set.
Qed.

Lemma keys_set_all_present d l :
  (∀ kv, kv ∈ l → kv.1 ∈ PyDict.keys d) →
  PyDict.keys (set_all d l) = PyDict.keys d.
Proof.
  revert d. induction l as [|[k v] l IH]; intros d Hl; [done|].
  rewrite set_all_cons.
  assert (k ∈ PyDict.keys d) as Hk by (apply (Hl (k, v)); by left).
  rewrite IH.
  - by apply PyDictFacts.keys_set_present.
  - intros kv Hkv. rewrite PyDictFacts.keys_set_present by done.
    apply Hl. by right.
Qed.

Lemma keys_of_set_all d l kv : kv ∈ l → kv.1 ∈ PyDict.keys (set_all d l).
Proof.
  destruct kv as [k v]. cbn [fst].
  intros Hin. apply PyDictFacts.get_is_Some. rewrite get_set_all.
  assert (is_Some (last_binding l k)) as [w ->]; [|by eexists].
  induction l as [|[k0 v0] l IH]; [by apply elem_of_nil in Hin|].
  cbn [last_binding]. apply elem_of_cons in Hin as [[= <- <-]|Hin].
  - destruct (last_binding l k); [by eexists|].
    rewrite String.eqb_refl. by eexists.
  - destruct (IH Hin) as [w ->]. by eexists.
Qed.

Lemma dict_ext d1 d2 :
  PyDict.wf d1 → PyDict.keys d1 = PyDict.keys d2 →
  (∀ k, PyDict.get d1 k = PyDict.get d2 k) → d1 = d2.
Proof.
  revert d2. induction d1 as [|[k v] d1 IH]; intros [|[k' v'] d2] Hwf Hk Hg;
    try done.
  unfold PyDict.wf, PyDict.keys in *. rewrite !fmap_cons in *.
  simpl in Hk. injection Hk as <- Hk.
  apply NoDup_cons in Hwf as [Hnot Hwf].
  pose proof (Hg k) as Hgk. simpl in Hgk. rewrite String.eqb_refl in Hgk.
  injection Hgk as <-. f_equal.
  apply IH; [done..|]. intros j.
  destruct (String.eqb_spec k j) as [<-|Hne].
  - assert (PyDict.get d1 k = None) as -> by by apply PyDictFacts.get_None.
    symmetry. apply PyDictFacts.get_None. unfold PyDict.keys. by rewrite <- Hk.
  - specialize (Hg j). simpl in Hg.
    by destruct (String.eqb_spec k j).
Qed.

(** Storing the same items once more changes nothing. *)
Lemma set_all_idem d l :
  PyDict.wf d → set_all (set_all d l) l = set_all d l.
Proof.
  intros Hwf. apply dict_ext.
  - by apply wf_set_all, wf_set_all.
  - apply keys_set_all_present. intros kv Hkv. by apply keys_of_set_all.
  - intros k. rewrite !get_set_all. by destruct (last_binding l k).
Qed.
End set_all_facts.

Lemma uniform_ret : uniform (mret tt).
Proof. exists [], true. by intros s. Qed.

Lemma uniform_log_write msg : uniform (log_write msg).
Proof. exists [], true. by intros s. Qed.

Lemma uniform_raise e : uniform (raise e).
Proof. exists [], false. by intros s. Qed.

Lemma uniform_prependTablesDirs dirs : uniform (prependTablesDirs dirs).
Proof. exists [], true. by intros s. Qed.

Lemma uniform_addTable f d c o i : uniform (addTable f d c o i).
Proof.
  destruct (o || i) eqn:Hu.
  - exists [(f, mkBrailleTable f d c o i)], true. intros s.
    by rewrite addTable_usable.
  - apply orb_false_iff in Hu as [-> ->]. exists [], false. by intros s.
Qed.

Lemma uniform_bind (m k : M ()) :
  uniform m → uniform k → uniform (m ≫= λ _, k).
Proof.
  intros (lm & rm & Hm) (lk & rk & Hk). destruct rm.
  - exists (lm ++ lk), rk. intros s. destruct (Hm s) as [Ht Hr].
    unfold mbind, M_bind. destruct (m s) as [[] s'|e s']; [|done].
    simpl in Ht. destruct (Hk s') as [Ht' Hr'].
    by rewrite Ht', Ht, set_all_app.
  - exists lm, false. intros s. destruct (Hm s) as [Ht Hr].
    unfold mbind, M_bind. by destruct (m s) as [[] s'|e s'].
Qed.

Lemma uniform_for_each {A} (body : A → M ()) xs :
  (∀ x, x ∈ xs → uniform (body x)) → uniform (for_each xs body).
Proof.
  induction xs as [|x xs IH]; intros Hb; [apply uniform_ret|].
  apply uniform_bind; [apply Hb; by left|].
  apply IH. intros y Hy. apply Hb. by right.
Qed.

(** [try: m  except Exception: log] *)
Lemma uniform_try_except (m : M ()) (handler : exn → M ()) :
  uniform m → (∀ e, ∃ msg, handler e = log_write msg) →
  uniform (try_except m handler).
Proof.
  intros (lm & rm & Hm) Hh. exists lm, true. intros s.
  destruct (Hm s) as [Ht Hr]. unfold try_except.
  destruct (m s) as [[] s'|e s']; [done|].
  destruct (Hh e) as [msg ->]. done.
Qed.

Section uniform_facts.
Variable E : Env.

Lemma uniform_loadCustomTablesConfig data :
  uniform (loadCustomTablesConfig E data).
Proof.
  apply uniform_for_each. intros [f cfg] _.
  destruct (customTable E f cfg) as [e|t] eqn:Ht.
  - exists [], false. intros s. by rewrite loadCustomTable_spec, Ht.
  - exists [(f, t)], true. intros s. by rewrite loadCustomTable_spec, Ht.
Qed.

Lemma uniform_applyManifest dir_ fileName :
  uniform (applyManifest E dir_ fileName).
Proof.
  unfold applyManifest.
  destruct (isfile E _ && endswith fileName ".ini"); [|apply uniform_ret].
  apply uniform_try_except; [|intros e; by eexists].
  unfold mbind, M_bind, lift.
  destruct (CustomTablesManifest E _) as [e|data].
  - apply (uniform_raise e).
  - apply uniform_loadCustomTablesConfig.
Qed.

Lemma uniform_loadCustomDir dir_ : uniform (loadCustomDir E dir_).
Proof.
  unfold loadCustomDir. destruct (listdir E dir_) as [e|files].
  - destruct e; first [apply uniform_log_write | apply uniform_raise].
  - apply uniform_for_each. intros m _. apply uniform_applyManifest.
Qed.

Lemma uniform_addBuiltinTables : uniform (addBuiltinTables E).
Proof.
  unfold addBuiltinTables. generalize builtinTables as l. intros l.
  apply uniform_for_each. intros b _. apply uniform_addTable.
Qed.

Lemma uniform_addCustomTables : uniform (addCustomTables E).
Proof.
  unfold addCustomTables.
  apply (uniform_bind (prependTablesDirs (_getCustomTablesDirs E))
           (for_each (reverse (_getCustomTablesDirs E)) (loadCustomDir E))).
  - apply uniform_prependTablesDirs.
  - apply uniform_for_each. intros d _. apply uniform_loadCustomDir.
Qed.

Lemma uniform_initialize : uniform (initialize E).
Proof.
  exact (uniform_bind (addBuiltinTables E) (addCustomTables E)
           uniform_addBuiltinTables uniform_addCustomTables).
Qed.
End uniform_facts.

(** X19. [initialize] a second time changes nothing in the registry: in
    a reachable state, [initialize] followed by [initialize], with no
    [terminate] in between and the installation unchanged, leaves the
    registry, hence the list of [listTables], that the first one leaves,
    and returns or raises as the first one does. *)
Theorem initialize_twice E0 E st :
  reachable E0 st →
  let once := initialize E st in
  let twice := initialize E (final_state once) in
  _tables (final_state twice) = _tables (final_state once) ∧
  listTables (final_state twice) = listTables (final_state once) ∧
  returns twice = returns once.
Proof.
  intros [Hwf _]%keyed_reachable once twice. subst once twice.
  destruct (uniform_initialize E) as (l & r & Hu).
  destruct (Hu st) as [Ht1 Hr1].
  destruct (Hu (final_state (initialize E st))) as [Ht2 Hr2].
  assert (_tables (final_state (initialize E (final_state (initialize E st))))
          = _tables (final_state (initialize E st))) as Heq.
  { rewrite Ht2, Ht1. by apply set_all_idem. }
  split; [exact Heq|]. split.
  - unfold listTables. by rewrite Heq.
  - by rewrite Hr2, Hr1.
Qed.

Lemma initialize_twice_witness :
  let once := initialize (sampleEnv "en") initialState in
  let twice := initialize (sampleEnv "en") (final_state once) in
  _tables (final_state twice) = _tables (final_state once) ∧
  listTables (final_state twice) = listTables (final_state once) ∧
  returns twice = returns once.
Proof.
  apply (initialize_twice (sampleEnv "en") (sampleEnv "en") initialState).
  apply reachable_initial.
Defined.
